(** * Transcript summarisation notebook: text stages, windowing and assembly

    A shallow embedding of [summarization/01-summarization.ipynb].

    Conventions of the embedding.
    - A Python [str] is a list of 8-bit characters, read as the code points
      U+0000..U+00FF.  On that range [str.isspace] (and the regex class
      [\s]) holds exactly for 9..13, 28..31, 32, 133 and 160, and the regex
      class [\d] for the ten ASCII digits.
    - A Python [int] is a [Z]; a list of tokens is a [list Z].
    - Exceptions are values of [exn]; a computation that may raise returns a
      [result].
    - The chat-completion service is the only interaction of the stages: a
      stage is a tree of requests ([io]) that a handler answers.
    - [print] calls write to the terminal only and are left out. *)

From Stdlib Require Import List Ascii String ZArith Lia Bool Arith.
Import ListNotations.
Local Open Scope Z_scope.

(** ** Python strings *)

Definition str := list ascii.

Definition lit (s : string) : str := list_ascii_of_string s.

Definition LF : ascii := ascii_of_nat 10.

(** [len(x)] *)
Definition len {A : Type} (l : list A) : Z := Z.of_nat (List.length l).

(** [c.isspace()] on U+0000..U+00FF *)
Definition isspace (c : ascii) : bool :=
  let n := nat_of_ascii c in
  ((9 <=? n) && (n <=? 13) || (28 <=? n) && (n <=? 31)
   || (n =? 32) || (n =? 133) || (n =? 160))%nat.

(** [s.startswith(p)] *)
Fixpoint startswith (s p : str) : bool :=
  match p, s with
  | [], _ => true
  | _ :: _, [] => false
  | a :: p', b :: s' => Ascii.eqb a b && startswith s' p'
  end.

(** [s.endswith(p)] *)
Definition endswith (s p : str) : bool := startswith (rev s) (rev p).

(** Truth value of a string: non-empty. *)
Definition truthy (s : str) : bool :=
  match s with [] => false | _ :: _ => true end.

Fixpoint dropwhile (p : ascii -> bool) (s : str) : str :=
  match s with
  | [] => []
  | c :: s' => if p c then dropwhile p s' else s
  end.

Definition lstrip (s : str) : str := dropwhile isspace s.
Definition rstrip (s : str) : str := rev (dropwhile isspace (rev s)).

(** [s.strip()] *)
Definition strip (s : str) : str := rstrip (lstrip s).

(** [s.split(c)] for a one-character separator [c]: never the empty list. *)
Fixpoint split (c : ascii) (s : str) : list str :=
  match s with
  | [] => [[]]
  | x :: s' =>
      if Ascii.eqb x c then [] :: split c s'
      else match split c s' with
           | l :: ls => (x :: l) :: ls
           | [] => [[x]]
           end
  end.

(** [sep.join(parts)] *)
Fixpoint join (sep : str) (parts : list str) : str :=
  match parts with
  | [] => []
  | [p] => p
  | p :: ps => p ++ sep ++ join sep ps
  end.

(** [s.replace(old, new)]: leftmost non-overlapping occurrences; with an
    empty [old] the replacement goes before every character and at the end.
    [skip] counts the characters of a match still to be passed over. *)
Fixpoint replace_from (old new : str) (skip : nat) (s : str) : str :=
  match s with
  | [] => []
  | c :: s' =>
      match skip with
      | S k => replace_from old new k s'
      | O =>
          if startswith s old
          then new ++ replace_from old new (pred (List.length old)) s'
          else c :: replace_from old new O s'
      end
  end.

Definition replace (s old new : str) : str :=
  match old with
  | [] => new ++ flat_map (fun c => c :: new) s
  | _ :: _ => replace_from old new O s
  end.

(** [f.readlines()] on the decoded text of a file: lines keep their
    terminating newline; a last line without one is kept as it is. *)
Fixpoint readlines_from (cur : str) (s : str) : list str :=
  match s with
  | [] => match cur with [] => [] | _ :: _ => [rev cur] end
  | c :: s' =>
      if Ascii.eqb c LF then rev (c :: cur) :: readlines_from [] s'
      else readlines_from (c :: cur) s'
  end.

Definition readlines (content : str) : list str := readlines_from [] content.

(** ** Python sequences *)

(** Normalisation of one bound of a slice of a sequence of length [n]. *)
Definition slice_bound (n i : Z) : Z :=
  let i := if i <? 0 then i + n else i in
  if i <? 0 then 0 else if n <? i then n else i.

(** [l[lo:hi]] *)
Definition slice {A : Type} (l : list A) (lo hi : Z) : list A :=
  let n := len l in
  let lo' := slice_bound n lo in
  let hi' := slice_bound n hi in
  firstn (Z.to_nat (hi' - lo')) (skipn (Z.to_nat lo') l).

(** [s[1:]] and [s[:-1]] *)
Definition drop_first (s : str) : str := tl s.
Definition drop_last (s : str) : str := removelast s.

(** ** Exceptions *)

Inductive exn : Type :=
| ValueError (msg : string)
| SystemExit (code : Z)
| AttributeError (msg : string)
| OSError (msg : string).

Inductive result (A : Type) : Type :=
| Ok (a : A)
| Err (e : exn).
Arguments Ok {A} a.
Arguments Err {A} e.

(** [range(start, stop, step)] as the list of its items. *)
Definition range (start stop step : Z) : result (list Z) :=
  if step =? 0 then Err (ValueError "range() arg 3 must not be zero")
  else
    let count :=
      if 0 <? step
      then (if start <? stop then (stop - start - 1) / step + 1 else 0)
      else (if stop <? start then (start - stop - 1) / (- step) + 1 else 0) in
    Ok (map (fun k => start + Z.of_nat k * step) (seq 0 (Z.to_nat count))).

(** ** Loops *)

(** [while cond(s): s = body(s)], run for at most [fuel] iterations. *)
Fixpoint while {St : Type} (fuel : nat) (cond : St -> bool)
  (body : St -> St) (s : St) : St :=
  match fuel with
  | O => s
  | S f => if cond s then while f cond body (body s) else s
  end.

(** ** Response post-processing *)

(** The two loops that close [sort_by_topic] and [process_summary]:
    every iteration removes one character, so [length s] iterations are
    enough for each loop. *)
Definition blank_edge_trim (notes : str) : str :=
  let notes :=
    while (List.length notes) (fun s => startswith s [LF]) drop_first notes in
  while (List.length notes) (fun s => endswith s [LF]) drop_last notes.

(** One iteration of the filter loop of [process_sections]. *)
Definition filter_line (filtered_lines : list str) (line : str) : list str :=
  let line := strip line in
  if startswith line (lit "-") || truthy line
  then filtered_lines ++ [line]
  else filtered_lines.

Definition filtered_lines_of (answer : str) : list str :=
  fold_left filter_line (split LF answer) [].

Definition bullet_filter (answer : str) : str :=
  join [LF] (filtered_lines_of answer).

(** ** Regular expressions

    The patterns of [clean_input_text] are sequences of one-character
    classes, some of them under [+].  [match_here] follows the backtracking
    matcher: a class under [+] takes as many characters as it can and gives
    them back one at a time.  It returns what is left of the text after the
    match. *)

Inductive atom : Type :=
| One (p : ascii -> bool)
| Many1 (p : ascii -> bool).

Definition pattern := list atom.

Fixpoint match_here (pat : pattern) (s : str) : option str :=
  match pat with
  | [] => Some s
  | One p :: pat' =>
      match s with
      | c :: s' => if p c then match_here pat' s' else None
      | [] => None
      end
  | Many1 p :: pat' =>
      (fix many1 (s : str) : option str :=
         match s with
         | c :: s' =>
             if p c
             then match many1 s' with
                  | Some rest => Some rest
                  | None => match_here pat' s'
                  end
             else None
         | [] => None
         end) s
  end.

(** [re.sub(pat, repl, s)] for a pattern whose matches are never empty
    (every pattern below starts with an atom): the leftmost match is
    replaced and the scan resumes after it. *)
Fixpoint sub_from (pat : pattern) (repl : str) (skip : nat) (s : str) : str :=
  match s with
  | [] => []
  | c :: s' =>
      match skip with
      | S k => sub_from pat repl k s'
      | O =>
          match match_here pat s with
          | Some rest =>
              repl ++ sub_from pat repl (List.length s' - List.length rest) s'
          | None => c :: sub_from pat repl O s'
          end
      end
  end.

Definition re_sub (pat : pattern) (repl : str) (s : str) : str :=
  sub_from pat repl O s.

Definition chr (c : ascii) : atom := One (Ascii.eqb c).
Definition chars (s : string) : pattern := map chr (lit s).

(** [\d] *)
Definition digit : atom :=
  One (fun c => (48 <=? nat_of_ascii c)%nat && (nat_of_ascii c <=? 57)%nat).
(** [.] (no DOTALL flag: anything but a newline) *)
Definition dot : atom := One (fun c => negb (Ascii.eqb c LF)).

(** [\d{2}:\d{2}:\d{2}.\d{3}] *)
Definition clock_re : pattern :=
  [digit; digit] ++ chars ":" ++ [digit; digit] ++ chars ":"
  ++ [digit; digit; dot; digit; digit; digit].

(** [\d{2}:\d{2}:\d{2}.\d{3} --> \d{2}:\d{2}:\d{2}.\d{3}\n] *)
Definition timestamp_re : pattern :=
  clock_re ++ chars " --> " ++ clock_re ++ [chr LF].

(** [<v [^>]+>] *)
Definition vtag_open_re : pattern :=
  chars "<v " ++ [Many1 (fun c => negb (Ascii.eqb c ">"))] ++ chars ">".

(** [</v>] *)
Definition vtag_close_re : pattern := chars "</v>".

(** [\s+] *)
Definition spaces_re : pattern := [Many1 isspace].

(** ** Cleaning *)

Definition clean_input_text (text : str) : str :=
  (* Remove timestamps *)
  let text := re_sub timestamp_re [] text in
  (* Remove blank lines *)
  let text :=
    join [LF] (filter (fun line => truthy (strip line)) (split LF text)) in
  (* Remove VTT tags *)
  let text := re_sub vtag_open_re [] text in
  let text := re_sub vtag_close_re [] text in
  (* Remove whitespace and new lines *)
  re_sub spaces_re (lit " ") text.

(** ** Jargon substitution *)

(** The files of the run: a path has a decoded text when it names a
    regular file, which is taken to be readable as text. *)
Definition files := str -> option str.

(** What [open] raises on a path that names no regular file: nothing is
    recorded for a path that does not exist, where [open] raises
    [FileNotFoundError]; otherwise it is the exception raised on what the
    path names ([IsADirectoryError] for a directory, an [OSError]). *)
Definition open_errors := str -> option exn.

Definition jargon_format_error : exn :=
  ValueError "Incorrect format in jargon.txt file. Each line should contain two strings separated by a comma.".

(** The validation loop over [jargon_pairs]. *)
Fixpoint validate_pairs (jargon_pairs : list (list str)) : result unit :=
  match jargon_pairs with
  | [] => Ok tt
  | fields :: rest =>
      if negb (List.length fields =? 2)%nat then Err jargon_format_error
      else validate_pairs rest
  end.

(** The replacement loop; it runs on validated pairs only, so the
    unpacking [jargon, replacement] finds two fields. *)
Fixpoint replace_pairs (text : str) (jargon_pairs : list (list str)) : str :=
  match jargon_pairs with
  | [] => text
  | [jargon; replacement] :: rest =>
      replace_pairs (replace text jargon replacement) rest
  | _ :: rest => replace_pairs text rest
  end.

Definition replace_jargon (fs : files) (text : str)
  (jargon_file : option str) : result str :=
  match jargon_file with
  | None => Ok text
  | Some path =>
      match fs path with
      | Some content =>
          let jargon_pairs :=
            map (fun line => split "," (strip line)) (readlines content) in
          match validate_pairs jargon_pairs with
          | Err e => Err e
          | Ok _ => Ok (replace_pairs text jargon_pairs)
          end
      | None => Ok text
      end
  end.

(** ** Settings *)

Definition PERSONA_PROMPT : str :=
  lit "You are to act as an expert project manager.".
Definition SECTION_PROMPT : str :=
  PERSONA_PROMPT ++ lit " Paraphrase each thought into bullet point statements. Do not include an intro or conclusion.".
Definition TOPIC_PROMPT : str :=
  PERSONA_PROMPT ++ lit " Separate the following notes into sections by topic. Do not change the wording or order of notes.".
Definition SUMMARY_PROMPT : str :=
  PERSONA_PROMPT ++ lit " Summarize the following meeting notes in Key Takeaways and Action Items. Key Takeaways and Action Items should not repeat each other.".

Definition OVERLAP : Z := 50.
Definition SECTION_RESPONSE_MAX_TOKENS : Z := 1024.
Definition SYSTEM_PROMPT : str := lit "You are a helpful assistant.".

(** ** The tokenizer

    [enc = tiktoken.get_encoding(...)] is outside the notebook.  [encode]
    raises on a text that spells one of the encoding's special tokens;
    [decode] is total. *)
Class Encoding : Type := {
  encode : str -> result (list Z);
  decode : list Z -> str
}.

(** ** Stages as request trees *)

(** [Request prompt max_tokens k]: one [openai.ChatCompletion.create] call
    with the fixed model, temperature and system message, the user message
    [prompt] and the cap [max_tokens]; the answer is the content of the
    first choice, or [None] when the call raises the service's error. *)
Inductive io (A : Type) : Type :=
| Ret (a : A)
| Raise (e : exn)
| Request (prompt : str) (max_tokens : Z) (k : option str -> io A).
Arguments Ret {A} a.
Arguments Raise {A} e.
Arguments Request {A} prompt max_tokens k.

Fixpoint bind {A B : Type} (m : io A) (f : A -> io B) : io B :=
  match m with
  | Ret a => f a
  | Raise e => Raise e
  | Request prompt max_tokens k =>
      Request prompt max_tokens (fun r => bind (k r) f)
  end.

Notation "x <- m ;; k" := (bind m (fun x => k))
  (at level 61, m at next level, right associativity).

Definition lift {A : Type} (r : result A) : io A :=
  match r with
  | Ok a => Ret a
  | Err e => Raise e
  end.

(** A handler answers the requests of a tree, threading its own state. *)
Fixpoint run {St A : Type} (svc : St -> str -> Z -> option str * St)
  (s : St) (p : io A) : result A * St :=
  match p with
  | Ret a => (Ok a, s)
  | Raise e => (Err e, s)
  | Request prompt max_tokens k =>
      let (r, s') := svc s prompt max_tokens in
      run svc s' (k r)
  end.

(** The handler of [call_openai_model] is [except openai.Error], and
    the package has no attribute of that name: when the call raises,
    looking the name up raises [AttributeError], and neither the message nor
    [sys.exit(1)] of the handler is reached. *)
Definition openai_Error_missing : exn :=
  AttributeError "module 'openai' has no attribute 'Error'".

Definition call_openai_model (prompt : str) (max_tokens : Z) : io str :=
  Request prompt max_tokens
    (fun r =>
       match r with
       | Some content => Ret content
       | None => Raise openai_Error_missing
       end).

(** ** Windowing *)

(** The windows of the loop header and first line of its body in
    [process_sections]: [for i in range(0, len(tokens), budget - overlap)]
    with [tokens[i:i+budget]], each with its start offset. *)
Definition windows (tokens : list Z) (budget overlap : Z)
  : result (list (Z * list Z)) :=
  match range 0 (len tokens) (budget - overlap) with
  | Err e => Err e
  | Ok starts => Ok (map (fun i => (i, slice tokens i (i + budget))) starts)
  end.

Section Stages.
Context {enc : Encoding}.

(** The body of the section loop, over the windows still to process. *)
Fixpoint sections_loop (intro_text outro_text : str)
  (ws : list (Z * list Z)) (answers : list str) : io (list str) :=
  match ws with
  | [] => Ret answers
  | (_, section_tokens) :: rest =>
      let section := decode section_tokens in
      let section := intro_text ++ section ++ outro_text in
      answer <- call_openai_model section SECTION_RESPONSE_MAX_TOKENS ;;
      let filtered_answer := bullet_filter answer in
      sections_loop intro_text outro_text rest (answers ++ [filtered_answer])
  end.

Definition process_sections (text : str) : io str :=
  let intro_text := SECTION_PROMPT ++ lit "###" in
  let outro_text := lit "###" in
  (* Determine section length *)
  section_prompt_tokens <- lift (encode (intro_text ++ outro_text)) ;;
  system_prompt_tokens <- lift (encode SYSTEM_PROMPT) ;;
  tokenized_text <- lift (encode text) ;;
  let section_length :=
    4000 - SECTION_RESPONSE_MAX_TOKENS
    - len section_prompt_tokens - len system_prompt_tokens in
  ws <- lift (windows tokenized_text section_length OVERLAP) ;;
  answers <- sections_loop intro_text outro_text ws [] ;;
  (* Combine the answers into a single string *)
  Ret (join [LF] answers).

Definition str_eqb (a b : str) : bool :=
  if list_eq_dec ascii_dec a b then true else false.

(** The instruction of the topic stage: the model picks the topics on
    [auto], and is given them otherwise. *)
Definition topic_prompt (topics : str) : str :=
  if str_eqb topics (lit "auto") then TOPIC_PROMPT
  else TOPIC_PROMPT ++ lit " Topics: " ++ topics.

Definition sort_by_topic (full_notes : str) (topics : option str) : io str :=
  match topics with
  | None => Ret full_notes
  | Some topics =>
      let combined_topic_prompt := topic_prompt topics in
      let topic_intro_text := combined_topic_prompt ++ lit "###" in
      let topic_outro_text := lit "###" in
      (* Determine max summary length *)
      topic_prompt_tokens <-
        lift (encode (topic_intro_text ++ topic_outro_text)) ;;
      system_prompt_tokens <- lift (encode SYSTEM_PROMPT) ;;
      full_notes_tokens <- lift (encode full_notes) ;;
      let topic_length :=
        4000 - len full_notes_tokens
        - len topic_prompt_tokens - len system_prompt_tokens in
      let topic_input := topic_intro_text ++ full_notes ++ topic_outro_text in
      sorted_notes <- call_openai_model topic_input topic_length ;;
      (* Remove leading and trailing blank lines *)
      Ret (blank_edge_trim sorted_notes)
  end.

Definition process_summary (sorted_notes : str) : io str :=
  let summary_intro_text := SUMMARY_PROMPT ++ lit "###" in
  let summary_outro_text := lit "###" in
  (* Determine max summary length *)
  summary_prompt_tokens <-
    lift (encode (summary_intro_text ++ summary_outro_text)) ;;
  tokenized_text <- lift (encode sorted_notes) ;;
  system_prompt_tokens <- lift (encode SYSTEM_PROMPT) ;;
  let summary_length :=
    4000 - len tokenized_text
    - len summary_prompt_tokens - len system_prompt_tokens in
  let summary_input :=
    summary_intro_text ++ sorted_notes ++ summary_outro_text in
  summary_notes <- call_openai_model summary_input summary_length ;;
  (* Remove leading and trailing blank lines *)
  Ret (blank_edge_trim summary_notes).

(** ** The run *)

Record arguments : Type := {
  input_file : str;
  output_file : option str;
  jargon_file : option str;
  topics : option str;
  summary : bool
}.

(** Only [FileNotFoundError] is caught. *)
Definition get_input_text (fs : files) (errors : open_errors)
  (input_file : str) : io str :=
  match fs input_file with
  | Some text => Ret text
  | None =>
      match errors input_file with
      | None => Raise (SystemExit 1)
      | Some e => Raise e
      end
  end.

(** The separator between the summary and the notes. *)
Definition NOTES_SEPARATOR : str := [LF; LF] ++ lit "Notes:" ++ [LF].

(** The last block of [main]: summarize if requested and combine. *)
Definition combine_notes (generate_summary : bool) (sorted_notes : str)
  : io str :=
  if generate_summary then
    summary_notes <- process_summary sorted_notes ;;
    (* Combine summary and notes *)
    Ret (summary_notes ++ NOTES_SEPARATOR ++ sorted_notes)
  else Ret sorted_notes.

(** [main] up to the text it hands to [write_output_to_file]; [typed] is
    the line read by [input] when the topics are asked at run time. *)
Definition main (fs : files) (errors : open_errors) (args : arguments)
  (typed : str) : io str :=
  let topics :=
    match topics args with
    | Some t => if str_eqb t (lit "prompt") then Some typed else Some t
    | None => None
    end in
  input_text <- get_input_text fs errors (input_file args) ;;
  let clean_text := clean_input_text input_text in
  clean_text <- lift (replace_jargon fs clean_text (jargon_file args)) ;;
  full_notes <- process_sections clean_text ;;
  sorted_notes <- sort_by_topic full_notes topics ;;
  combine_notes (summary args) sorted_notes.

End Stages.

(** ** Writing the document *)

(** [p.rfind(c)] for a one-character [c]: the index of its last
    occurrence, or -1.  [i] is the index of the head of [p] and [found] the
    last occurrence seen so far. *)
Fixpoint rfind_from (i : Z) (p : str) (c : ascii) (found : Z) : Z :=
  match p with
  | [] => found
  | x :: p' => rfind_from (i + 1) p' c (if Ascii.eqb x c then i else found)
  end.

Definition rfind (p : str) (c : ascii) : Z := rfind_from 0 p c (-1).

(** The loop of [os.path.splitext] (POSIX) that skips the leading dots of
    the file name: the path is split at its last dot as soon as a character
    other than a dot is found before it. *)
Fixpoint splitext_loop (fuel : nat) (p : str) (filenameIndex dotIndex : Z)
  : str * str :=
  match fuel with
  | O => (p, [])
  | S fuel' =>
      if filenameIndex <? dotIndex then
        if negb (str_eqb (slice p filenameIndex (filenameIndex + 1)) (lit "."))
        then (slice p 0 dotIndex, slice p dotIndex (len p))
        else splitext_loop fuel' p (filenameIndex + 1) dotIndex
      else (p, [])
  end.

(** [os.path.splitext(p)]: the loop runs at most once per character. *)
Definition splitext (p : str) : str * str :=
  let sepIndex := rfind p "/" in
  let dotIndex := rfind p "." in
  if sepIndex <? dotIndex
  then splitext_loop (List.length p) p (sepIndex + 1) dotIndex
  else (p, []).

(** [write_output_to_file]: [writable] tells whether a path can be opened
    for writing; the result is the path written and the files after the
    write.  Any failure of the write ends the run with status 1. *)
Definition write_output_to_file (writable : str -> bool) (fs : files)
  (input_file : str) (output_file : option str) (combined_notes : str)
  : result (str * files) :=
  let output_file :=
    match output_file with
    | None =>
        (* Generate output file name from input file name *)
        let input_file_base := fst (splitext input_file) in
        input_file_base ++ lit "_output.txt"
    | Some output_file => output_file
    end in
  if writable output_file
  then Ok (output_file,
           fun path =>
             if str_eqb path output_file then Some combined_notes
             else fs path)
  else Err (SystemExit 1).

(** ** Instances for running the stages on concrete inputs *)

(** A tokenizer with one token per character. *)
Definition char_encoding : Encoding := {|
  encode := fun s => Ok (map (fun c => Z.of_nat (nat_of_ascii c)) s);
  decode := fun ts => map (fun t => ascii_of_nat (Z.to_nat t)) ts
|}.

(** A service that gives the answers of a script in order, and fails once
    the script is over. *)
Definition scripted (script : list (option str)) (prompt : str)
  (max_tokens : Z) : option str * list (option str) :=
  match script with
  | [] => (None, [])
  | r :: rest => (r, rest)
  end.


(** ** Vocabulary of the properties *)

(** The number of items of [range(0, n, step)] for a positive [step]. *)
Definition window_count (n step : Z) : Z :=
  if 0 <? n then (n - 1) / step + 1 else 0.

(** The last [n] elements of a list. *)
Definition lastn {A : Type} (n : nat) (l : list A) : list A :=
  skipn (List.length l - n) l.

(** Emission stops at the first window whose end offset is the total
    length [total]: such a window has no successor. *)
Definition stops_at_end (total : Z) (ws : list (Z * list Z)) : Prop :=
  forall k i w,
    nth_error ws k = Some (i, w) -> i + len w = total ->
    nth_error ws (S k) = None.

(** A stage that raises before any request. *)
Definition raises {A : Type} (p : io A) : Prop := exists e, p = Raise e.

(** What both [strip] and the two trimming loops compute: the characters
    satisfying [p] are dropped at both ends. *)
Definition trim_both (p : ascii -> bool) (s : str) : str :=
  rev (dropwhile p (rev (dropwhile p s))).

(** Neither the first nor the last character satisfies [p]. *)
Definition clean_edges (p : ascii -> bool) (s : str) : Prop :=
  (forall c t, s = c :: t -> p c = false) /\
  (forall c t, rev s = c :: t -> p c = false).

Definition is_LF (c : ascii) : bool := Ascii.eqb c LF.

(** The example of the last stage: the notes and the raw summary answer. *)
Definition example_notes : str := lit "Point A" ++ [LF] ++ lit "Point B".
Definition example_summary_answer : str :=
  [LF; LF] ++ lit "Key Takeaways:" ++ [LF] ++ lit "- A" ++ [LF; LF]
  ++ lit "Action Items:" ++ [LF] ++ lit "- B" ++ [LF; LF].
Definition example_document : str :=
  lit "Key Takeaways:" ++ [LF] ++ lit "- A" ++ [LF; LF]
  ++ lit "Action Items:" ++ [LF] ++ lit "- B" ++ [LF; LF]
  ++ lit "Notes:" ++ [LF] ++ lit "Point A" ++ [LF] ++ lit "Point B".

(** Every path without text is a path that does not exist. *)
Definition nothing_else : open_errors := fun _ => None.

(** A run on the file [in.txt] alone, without jargon file and topics. *)
Definition example_files : files :=
  fun path => if str_eqb path (lit "in.txt") then Some (lit "hello") else None.
Definition example_arguments (generate_summary : bool) : arguments := {|
  input_file := lit "in.txt";
  output_file := None;
  jargon_file := None;
  topics := None;
  summary := generate_summary
|}.

(** A service that answers by [f] and records every request it gets. *)
Definition recording (f : str -> Z -> option str) (log : list (str * Z))
  (prompt : str) (max_tokens : Z) : option str * list (str * Z) :=
  (f prompt max_tokens, log ++ [(prompt, max_tokens)]).

(** The request of the section stage for one window. *)
Definition section_request {enc : Encoding} (w : Z * list Z) : str * Z :=
  ((SECTION_PROMPT ++ lit "###") ++ decode (snd w) ++ lit "###",
   SECTION_RESPONSE_MAX_TOKENS).

(** Every whitespace character is a space that is not followed by another
    whitespace character. *)
Fixpoint single_spaced (s : str) : bool :=
  match s with
  | [] => true
  | c :: s' =>
      (if isspace c
       then Ascii.eqb c " "
            && match s' with d :: _ => negb (isspace d) | [] => true end
       else true)
      && single_spaced s'
  end.

(** [old] occurs in [s]: some suffix of [s] starts with it. *)
Fixpoint occurs (old s : str) : bool :=
  startswith s old || match s with [] => false | _ :: s' => occurs old s' end.

(** The number of occurrences of a character. *)
Definition count_chr (c : ascii) (s : str) : nat :=
  List.length (filter (Ascii.eqb c) s).

(** The answers of a service to a list of requests made one after the
    other, and its state after the last one. *)
Fixpoint serve {St : Type} (svc : St -> str -> Z -> option str * St)
  (s : St) (requests : list (str * Z)) : list (option str) * St :=
  match requests with
  | [] => ([], s)
  | (prompt, max_tokens) :: rest =>
      let (r, s1) := svc s prompt max_tokens in
      let (rs, s2) := serve svc s1 rest in
      (r :: rs, s2)
  end.

(** The topics of the run: the line typed at run time stands for the
    literal [prompt]. *)
Definition topics_of_run (args : arguments) (typed : str) : option str :=
  match topics args with
  | Some t => if str_eqb t (lit "prompt") then Some typed else Some t
  | None => None
  end.

(** * Properties *)

(** ** Trimming at both ends *)

Section Trimming.
Variable p : ascii -> bool.

Lemma dropwhile_head (s : str) c t :
  dropwhile p s = c :: t -> p c = false.
Proof.
  induction s as [|x s IH]; simpl; [discriminate|].
  destruct (p x) eqn:E; [exact IH|].
  intros H; injection H as -> _; exact E.
Qed.

Lemma dropwhile_fixed (s : str) :
  (forall c t, s = c :: t -> p c = false) -> dropwhile p s = s.
Proof.
  destruct s as [|x s]; [reflexivity|].
  intros H; simpl; now rewrite (H x s eq_refl).
Qed.

Lemma dropwhile_snoc (s : str) c :
  p c = false -> dropwhile p (s ++ [c]) = dropwhile p s ++ [c].
Proof.
  intros Hc; induction s as [|x s IH]; simpl.
  - now rewrite Hc.
  - destruct (p x); [exact IH | reflexivity].
Qed.

Lemma dropwhile_In (s : str) c : In c (dropwhile p s) -> In c s.
Proof.
  induction s as [|x s IH]; simpl; [tauto|].
  destruct (p x); [intros H; right; auto | simpl; tauto].
Qed.

Lemma trim_both_clean (s : str) : clean_edges p (trim_both p s).
Proof.
  unfold clean_edges, trim_both.
  destruct (dropwhile p s) as [|c t] eqn:E.
  - simpl; split; intros; discriminate.
  - pose proof (dropwhile_head _ _ _ E) as Hc.
    simpl rev at 2 3. rewrite (dropwhile_snoc _ _ Hc), rev_app_distr.
    simpl; split.
    + intros c' t' H; injection H as <- _; exact Hc.
    + intros c' t'. rewrite rev_involutive. intros H.
      assert (H' : dropwhile p (rev t ++ [c]) = c' :: t')
        by (rewrite dropwhile_snoc; assumption).
      exact (dropwhile_head _ _ _ H').
Qed.

Lemma trim_both_fixed (s : str) : clean_edges p s -> trim_both p s = s.
Proof.
  intros [Hh Hl]; unfold trim_both.
  rewrite (dropwhile_fixed s Hh), (dropwhile_fixed (rev s) Hl).
  apply rev_involutive.
Qed.

Lemma trim_both_idem (s : str) : trim_both p (trim_both p s) = trim_both p s.
Proof. apply trim_both_fixed, trim_both_clean. Qed.

Lemma trim_both_In (s : str) c : In c (trim_both p s) -> In c s.
Proof.
  unfold trim_both; intros H.
  apply in_rev, dropwhile_In, in_rev, dropwhile_In in H; exact H.
Qed.

End Trimming.

Lemma strip_trim (s : str) : strip s = trim_both isspace s.
Proof. reflexivity. Qed.

(** ** The trimming loops *)

Lemma startswith_LF (s : str) :
  startswith s [LF] = match s with c :: _ => is_LF c | [] => false end.
Proof.
  destruct s as [|c s]; [reflexivity|].
  unfold is_LF; rewrite (Ascii.eqb_sym c LF).
  change (startswith (c :: s) [LF]) with (Ascii.eqb LF c && startswith s []).
  destruct s; simpl startswith; apply andb_true_r.
Qed.

Lemma leading_loop (fuel : nat) (s : str) :
  (List.length s <= fuel)%nat ->
  while fuel (fun s => startswith s [LF]) drop_first s = dropwhile is_LF s.
Proof.
  revert s; induction fuel as [|fuel IH]; intros s Hs.
  - destruct s; [reflexivity | simpl in Hs; lia].
  - simpl while. rewrite startswith_LF.
    destruct s as [|c s]; [reflexivity|]; simpl.
    destruct (is_LF c); [|reflexivity].
    apply IH; simpl in Hs; lia.
Qed.

Lemma removelast_rev (s : str) : removelast s = rev (tl (rev s)).
Proof.
  destruct (rev s) as [|c t] eqn:E.
  - apply (f_equal (@rev ascii)) in E; rewrite rev_involutive in E.
    now subst.
  - apply (f_equal (@rev ascii)) in E; rewrite rev_involutive in E.
    subst; simpl. now rewrite removelast_last.
Qed.

Lemma trailing_loop (fuel : nat) (s : str) :
  (List.length s <= fuel)%nat ->
  while fuel (fun s => endswith s [LF]) drop_last s
  = rev (dropwhile is_LF (rev s)).
Proof.
  revert s; induction fuel as [|fuel IH]; intros s Hs.
  - destruct s; [reflexivity | simpl in Hs; lia].
  - simpl while. rewrite (IH (drop_last s)).
    + change (endswith s [LF]) with (startswith (rev s) [LF]).
      rewrite startswith_LF.
      unfold drop_last; rewrite removelast_rev, rev_involutive.
      destruct (rev s) as [|c t] eqn:E; simpl.
      * apply (f_equal (@rev ascii)) in E; rewrite rev_involutive in E.
        now subst.
      * destruct (is_LF c); [reflexivity|].
        rewrite <- E; apply eq_sym, rev_involutive.
    + unfold drop_last; rewrite removelast_rev, length_rev.
      rewrite <- (length_rev s) in Hs.
      destruct (rev s); simpl in *; lia.
Qed.

Lemma blank_edge_trim_spec (s : str) :
  blank_edge_trim s = trim_both is_LF s.
Proof.
  unfold blank_edge_trim, trim_both.
  rewrite (leading_loop _ s (le_n _)).
  now rewrite (trailing_loop _ _ (le_n _)).
Qed.

(** More fuel changes nothing: the loops have stopped by themselves. *)
Lemma blank_edge_trim_fuel (s : str) (f1 f2 : nat) :
  (List.length s <= f1)%nat -> (List.length s <= f2)%nat ->
  while f2 (fun s => endswith s [LF]) drop_last
    (while f1 (fun s => startswith s [LF]) drop_first s)
  = blank_edge_trim s.
Proof.
  intros H1 H2. rewrite blank_edge_trim_spec; unfold trim_both.
  rewrite (leading_loop _ _ H1). apply trailing_loop.
  assert (H : forall t : str,
             (List.length (dropwhile is_LF t) <= List.length t)%nat).
  { induction t as [|c t IH]; simpl; [lia|].
    destruct (is_LF c); simpl; lia. }
  specialize (H s); lia.
Qed.

(** C6: the blank-edge trim of any text neither starts nor ends with a
    newline, and trimming a second time changes nothing. *)
Theorem blank_edge_trim_edges_idempotent (text : str) :
  startswith (blank_edge_trim text) [LF] = false /\
  endswith (blank_edge_trim text) [LF] = false /\
  blank_edge_trim (blank_edge_trim text) = blank_edge_trim text.
Proof.
  rewrite !blank_edge_trim_spec.
  destruct (trim_both_clean is_LF text) as [Hh Hl].
  split; [|split].
  - rewrite startswith_LF.
    destruct (trim_both is_LF text) as [|c t] eqn:E; [reflexivity|].
    exact (Hh c t eq_refl).
  - change (endswith (trim_both is_LF text) [LF])
      with (startswith (rev (trim_both is_LF text)) [LF]).
    rewrite startswith_LF.
    destruct (rev (trim_both is_LF text)) as [|c t] eqn:E; [reflexivity|].
    exact (Hl c t eq_refl).
  - apply trim_both_idem.
Qed.

(** ** Splitting and joining lines *)

Lemma split_not_nil (c : ascii) (s : str) : split c s <> [].
Proof.
  destruct s as [|x s]; simpl; [discriminate|].
  destruct (Ascii.eqb x c); [discriminate|].
  destruct (split c s); discriminate.
Qed.

Lemma split_pieces (c : ascii) (s l : str) :
  In l (split c s) -> ~ In c l.
Proof.
  revert l; induction s as [|x s IH]; simpl; intros l H.
  - destruct H as [<-|[]]; simpl; tauto.
  - destruct (Ascii.eqb_spec x c) as [->|Hx].
    + destruct H as [<-|H]; [simpl; tauto | auto].
    + destruct (split c s) as [|l0 ls] eqn:E.
      * destruct H as [<-|[]]; simpl; intros [->|[]]; congruence.
      * destruct H as [<-|H].
        -- simpl; intros [->|H]; [congruence|].
           exact (IH l0 (or_introl eq_refl) H).
        -- exact (IH l (or_intror H)).
Qed.

Lemma split_without (c : ascii) (l : str) : ~ In c l -> split c l = [l].
Proof.
  induction l as [|x l IH]; simpl; intros H; [reflexivity|].
  destruct (Ascii.eqb_spec x c) as [->|Hx]; [tauto|].
  rewrite IH by tauto; reflexivity.
Qed.

Lemma split_app (c : ascii) (l r : str) :
  ~ In c l -> split c (l ++ c :: r) = l :: split c r.
Proof.
  induction l as [|x l IH]; simpl; intros H.
  - now rewrite Ascii.eqb_refl.
  - destruct (Ascii.eqb_spec x c) as [->|Hx]; [tauto|].
    rewrite IH by tauto; reflexivity.
Qed.

Lemma split_join (c : ascii) (ls : list str) :
  ls <> [] -> (forall l, In l ls -> ~ In c l) ->
  split c (join [c] ls) = ls.
Proof.
  induction ls as [|l ls IH]; intros Hne H; [congruence|].
  destruct ls as [|l' ls'].
  - simpl; apply split_without, H; simpl; auto.
  - change (join [c] (l :: l' :: ls')) with (l ++ c :: join [c] (l' :: ls')).
    rewrite split_app by (apply H; simpl; auto).
    rewrite IH; [reflexivity | discriminate |].
    intros x Hx; apply H; simpl; simpl in Hx; tauto.
Qed.

(** ** The bullet filter *)

Lemma filter_line_spec (acc : list str) (line : str) :
  filter_line acc line
  = if truthy (strip line) then acc ++ [strip line] else acc.
Proof.
  unfold filter_line.
  destruct (strip line) as [|c t]; reflexivity || (simpl; now rewrite orb_true_r).
Qed.

Lemma filter_loop_spec (lines acc : list str) :
  fold_left filter_line lines acc = acc ++ filter truthy (map strip lines).
Proof.
  revert acc; induction lines as [|l lines IH]; intros acc; simpl.
  - now rewrite app_nil_r.
  - rewrite IH, filter_line_spec.
    destruct (truthy (strip l)); [now rewrite <- app_assoc | reflexivity].
Qed.

Lemma filtered_lines_spec (answer : str) :
  filtered_lines_of answer = filter truthy (map strip (split LF answer)).
Proof. apply filter_loop_spec. Qed.

Lemma kept_line (answer line : str) :
  In line (filtered_lines_of answer) ->
  exists raw, In raw (split LF answer) /\ line = strip raw /\ truthy line = true.
Proof.
  rewrite filtered_lines_spec, filter_In, in_map_iff.
  intros [[raw [<- Hraw]] Ht]; eauto.
Qed.

Lemma filter_kept (ls : list str) :
  (forall l, In l ls -> strip l = l /\ truthy l = true) ->
  filter truthy (map strip ls) = ls.
Proof.
  induction ls as [|l ls IH]; intros H; [reflexivity|]; simpl.
  destruct (H l (or_introl eq_refl)) as [-> ->].
  rewrite IH; [reflexivity | intros; apply H; simpl; auto].
Qed.

(** C5: the bullet filter is idempotent. *)
Theorem bullet_filter_idempotent (answer : str) :
  bullet_filter (bullet_filter answer) = bullet_filter answer.
Proof.
  unfold bullet_filter at 1 3. f_equal. unfold bullet_filter.
  destruct (filtered_lines_of answer) as [|l ls] eqn:E; [reflexivity|].
  rewrite filtered_lines_spec, split_join.
  - apply filter_kept; intros x Hx; rewrite <- E in Hx.
    destruct (kept_line _ _ Hx) as [raw [_ [-> Ht]]]; split; [|exact Ht].
    rewrite !strip_trim; apply trim_both_idem.
  - discriminate.
  - intros x Hx; rewrite <- E in Hx.
    destruct (kept_line _ _ Hx) as [raw [Hraw [-> _]]].
    intros Hc; apply (split_pieces _ _ _ Hraw).
    rewrite strip_trim in Hc; exact (trim_both_In _ _ _ Hc).
Qed.

(** C9: the bullet filter keeps the stripped form of a line, not the line:
    its lines are the non-empty strips of the lines of the answer, in
    order, so none of them has leading or trailing whitespace; indentation
    of nested bullets and trailing blanks are gone. *)
Theorem bullet_filter_strips_lines (answer : str) :
  bullet_filter answer
  = join [LF] (filter truthy (map strip (split LF answer))) /\
  (forall line, In line (filtered_lines_of answer) ->
     (exists raw, In raw (split LF answer) /\ line = strip raw) /\
     clean_edges isspace line) /\
  (filtered_lines_of answer <> [] ->
     split LF (bullet_filter answer) = filtered_lines_of answer) /\
  bullet_filter (lit "- a" ++ [LF] ++ lit "    - nested  " ++ [LF] ++ lit " text ")
  = lit "- a" ++ [LF] ++ lit "- nested" ++ [LF] ++ lit "text".
Proof.
  split; [|split; [|split]].
  - unfold bullet_filter; now rewrite filtered_lines_spec.
  - intros line H; destruct (kept_line _ _ H) as [raw [Hraw [-> _]]].
    split; [eauto|]. rewrite strip_trim; apply trim_both_clean.
  - intros Hne; unfold bullet_filter; apply split_join; [exact Hne|].
    intros x Hx; destruct (kept_line _ _ Hx) as [raw [Hraw [-> _]]].
    intros Hc; apply (split_pieces _ _ _ Hraw).
    rewrite strip_trim in Hc; exact (trim_both_In _ _ _ Hc).
  - reflexivity.
Qed.

(** ** Windows *)

Lemma windows_items (tokens : list Z) (b o : Z) :
  o < b ->
  windows tokens b o
  = Ok (map (fun k => (Z.of_nat k * (b - o),
                       slice tokens (Z.of_nat k * (b - o))
                         (Z.of_nat k * (b - o) + b)))
          (seq 0 (Z.to_nat (window_count (len tokens) (b - o))))).
Proof.
  intros H. unfold windows, range, window_count.
  replace (b - o =? 0) with false by lia.
  replace (0 <? b - o) with true by lia.
  rewrite map_map, Z.sub_0_r. reflexivity.
Qed.

Lemma windows_nth (tokens : list Z) (b o : Z) ws k i w :
  o < b -> windows tokens b o = Ok ws ->
  nth_error ws k = Some (i, w) ->
  i = Z.of_nat k * (b - o) /\
  Z.of_nat k < window_count (len tokens) (b - o) /\
  w = slice tokens i (i + b).
Proof.
  intros H Hw Hk. rewrite (windows_items _ _ _ H) in Hw.
  injection Hw as <-.
  rewrite nth_error_map, nth_error_seq in Hk.
  destruct (Nat.ltb_spec k (Z.to_nat (window_count (len tokens) (b - o))))
    as [Hlt|Hge]; simpl in Hk; [|discriminate].
  injection Hk as <- <-. repeat split. lia.
Qed.

Lemma window_count_spec (n step : Z) (k : nat) :
  0 < step ->
  (Z.of_nat k < window_count n step <-> Z.of_nat k * step < n).
Proof.
  intros Hs. unfold window_count.
  destruct (Z.ltb_spec 0 n) as [Hn|Hn].
  - pose proof (Z.mul_div_le (n - 1) step Hs) as Hd.
    split; intros H.
    + nia.
    + assert (Z.of_nat k <= (n - 1) / step)
        by (apply Z.div_le_lower_bound; nia).
      lia.
  - split; intros H; nia.
Qed.

Lemma slice_bound_nonneg (n i : Z) :
  0 <= i -> slice_bound n i = Z.min n i.
Proof.
  intros Hi. unfold slice_bound.
  replace (i <? 0) with false by lia.
  replace (i <? 0) with false by lia.
  destruct (Z.ltb_spec n i); lia.
Qed.

Lemma slice_window {A : Type} (l : list A) (i b : Z) :
  0 <= i -> 0 <= b ->
  slice l i (i + b) = firstn (Z.to_nat b) (skipn (Z.to_nat i) l).
Proof.
  intros Hi Hb. unfold slice; cbv zeta.
  rewrite !slice_bound_nonneg by lia. unfold len.
  destruct (Z.le_gt_cases i (Z.of_nat (List.length l))) as [H1|H1].
  - destruct (Z.le_gt_cases (i + b) (Z.of_nat (List.length l))) as [H2|H2].
    + f_equal; [lia | f_equal; lia].
    + rewrite !firstn_all2.
      * f_equal; lia.
      * rewrite length_skipn; lia.
      * rewrite length_skipn; lia.
  - rewrite (skipn_all2 (n := Z.to_nat i)) by lia.
    rewrite (skipn_all2 (n := Z.to_nat (Z.min (Z.of_nat (List.length l)) i)))
      by lia.
    now rewrite !firstn_nil.
Qed.

Lemma len_window {A : Type} (l : list A) (i b : Z) :
  0 <= i < len l -> 0 <= b ->
  i + len (slice l i (i + b)) = Z.min (len l) (i + b).
Proof.
  intros Hi Hb. rewrite slice_window by lia.
  unfold len in *. rewrite length_firstn, length_skipn. lia.
Qed.

Lemma windows_overlap_above (tokens : list Z) (b o : Z) :
  b < o -> windows tokens b o = Ok [].
Proof.
  intros H. unfold windows, range, len.
  replace (b - o =? 0) with false by lia.
  replace (0 <? b - o) with false by lia.
  destruct (Z.ltb_spec (Z.of_nat (List.length tokens)) 0); [lia|].
  reflexivity.
Qed.

Lemma windows_overlap_equal (tokens : list Z) (b : Z) :
  windows tokens b b = Err (ValueError "range() arg 3 must not be zero").
Proof. unfold windows, range. now rewrite Z.sub_diag. Qed.

(** C4: with [0 <= overlap < budget], the last [overlap] tokens of a
    window are the first [overlap] tokens of the next one, whenever both
    windows have at least [overlap] tokens. *)
Theorem consecutive_windows_overlap
  (tokens : list Z) (budget overlap : Z) ws k i1 w1 i2 w2 :
  0 <= overlap < budget ->
  windows tokens budget overlap = Ok ws ->
  nth_error ws k = Some (i1, w1) ->
  nth_error ws (S k) = Some (i2, w2) ->
  overlap <= len w1 -> overlap <= len w2 ->
  lastn (Z.to_nat overlap) w1 = firstn (Z.to_nat overlap) w2.
Proof.
  intros Hbo Hw H1 H2 L1 L2.
  destruct (windows_nth _ _ _ _ _ _ _ (proj2 Hbo) Hw H1) as [E1 [C1 ->]].
  destruct (windows_nth _ _ _ _ _ _ _ (proj2 Hbo) Hw H2) as [E2 [C2 ->]].
  assert (Hi1 : 0 <= i1) by nia.
  assert (Hi2 : i2 = i1 + (budget - overlap)) by lia.
  apply window_count_spec in C2; [|lia]. rewrite <- E2 in C2.
  rewrite (slice_window tokens i1) in * by lia.
  rewrite (slice_window tokens i2) in * by lia.
  unfold lastn, len in *.
  rewrite length_firstn, length_skipn in L2.
  assert (Hfull : (Z.to_nat i1 + Z.to_nat budget <= List.length tokens)%nat)
    by lia.
  rewrite length_firstn, length_skipn.
  rewrite skipn_firstn_comm, skipn_skipn, firstn_firstn.
  replace (Nat.min (Z.to_nat budget) (List.length tokens - Z.to_nat i1))
    with (Z.to_nat budget) by lia.
  f_equal; [lia|]. f_equal; lia.
Qed.

Lemma consecutive_windows_overlap_witness :
  lastn (Z.to_nat 1) [1; 2; 3] = firstn (Z.to_nat 1) [3; 4; 5].
Proof.
  apply (consecutive_windows_overlap [1; 2; 3; 4; 5; 6; 7] 3 1
           [(0, [1; 2; 3]); (2, [3; 4; 5]); (4, [5; 6; 7]); (6, [7])]
           0%nat 0 [1; 2; 3] 2 [3; 4; 5]);
    solve [reflexivity | vm_compute; intuition discriminate].
Defined.

(** C2, on the code: the first window of five tokens with budget 5 and
    overlap 2 already ends at the total length, and a second window is
    emitted all the same; likewise for 3000 tokens with budget 3000 and
    overlap 50. *)
Lemma windows_continue_after_end :
  windows [1; 2; 3; 4; 5] 5 2 = Ok [(0, [1; 2; 3; 4; 5]); (3, [4; 5])] /\
  ~ (forall ws, windows [1; 2; 3; 4; 5] 5 2 = Ok ws ->
                stops_at_end (len [1; 2; 3; 4; 5]) ws) /\
  ~ (forall ws, windows (repeat 7 3000) 3000 OVERLAP = Ok ws ->
                stops_at_end (len (repeat 7 3000)) ws).
Proof.
  split; [reflexivity|]. split.
  - intros H. specialize (H _ eq_refl 0%nat 0 [1; 2; 3; 4; 5] eq_refl eq_refl).
    discriminate H.
  - intros H.
    assert (E : exists ws, windows (repeat 7 3000) 3000 OVERLAP = Ok ws /\
                  nth_error ws 0 = Some (0, repeat 7 3000) /\
                  nth_error ws 1 <> None).
    { eexists; split; [vm_compute; reflexivity|].
      split; [reflexivity | discriminate]. }
    destruct E as [ws [Hw [H0 H1]]].
    apply H1, (H ws Hw 0%nat 0 (repeat 7 3000) H0).
    vm_compute; reflexivity.
Qed.

(** C2, as the code has it: with [0 <= overlap < budget] the loop emits
    one window for every start offset [k * (budget - overlap)] below the
    total length and for no other, each window ending at the smaller of the
    total length and [start + budget].  So no window starts at or after the
    total length, hence none at or after the end of a window that reached
    it, and the last window ends at the total length. *)
Theorem windows_starts_below_total (tokens : list Z) (budget overlap : Z) :
  0 <= overlap < budget ->
  exists ws,
    windows tokens budget overlap = Ok ws /\
    (forall k i w, nth_error ws k = Some (i, w) ->
       i = Z.of_nat k * (budget - overlap) /\
       0 <= i < len tokens /\
       i + len w = Z.min (len tokens) (i + budget)) /\
    (forall k, Z.of_nat k * (budget - overlap) < len tokens ->
       exists w, nth_error ws k = Some (Z.of_nat k * (budget - overlap), w)) /\
    (forall i w, nth_error ws (pred (List.length ws)) = Some (i, w) ->
       i + len w = len tokens) /\
    (forall k i w k' i' w',
       nth_error ws k = Some (i, w) -> nth_error ws k' = Some (i', w') ->
       i + len w = len tokens -> i' < i + len w).
Proof.
  intros Hbo.
  assert (Hs : 0 < budget - overlap) by lia.
  pose proof (windows_items tokens budget overlap (proj2 Hbo)) as Hw.
  eexists; split; [exact Hw|].
  assert (Hnth : forall k i w,
    nth_error
      (map (fun k => (Z.of_nat k * (budget - overlap),
                      slice tokens (Z.of_nat k * (budget - overlap))
                        (Z.of_nat k * (budget - overlap) + budget)))
         (seq 0 (Z.to_nat (window_count (len tokens) (budget - overlap)))))
      k = Some (i, w) ->
    i = Z.of_nat k * (budget - overlap) /\
    0 <= i < len tokens /\
    i + len w = Z.min (len tokens) (i + budget)).
  { intros k i w Hk.
    destruct (windows_nth _ _ _ _ _ _ _ (proj2 Hbo) Hw Hk) as [E [C ->]].
    apply window_count_spec in C; [|exact Hs].
    assert (0 <= i < len tokens) by nia.
    repeat split; try lia. apply len_window; lia. }
  split; [exact Hnth|]. split; [|split].
  - intros k Hk. apply window_count_spec in Hk; [|exact Hs].
    rewrite nth_error_map, nth_error_seq.
    destruct (Nat.ltb_spec k
                (Z.to_nat (window_count (len tokens) (budget - overlap))));
      [simpl; eauto | lia].
  - intros i w Hl. destruct (Hnth _ _ _ Hl) as [E [Hi Hlen]].
    rewrite Hlen. rewrite length_map, length_seq in E.
    assert (Hc : 0 < window_count (len tokens) (budget - overlap)).
    { rewrite length_map, length_seq in Hl.
      destruct (Z.to_nat (window_count (len tokens) (budget - overlap)))
        eqn:Ec; [discriminate Hl | lia]. }
    assert (Hnext :
      ~ Z.of_nat (S (pred (Z.to_nat
            (window_count (len tokens) (budget - overlap)))))
        < window_count (len tokens) (budget - overlap)) by lia.
    rewrite window_count_spec in Hnext by exact Hs.
    nia.
  - intros k i w k' i' w' Hk Hk' Hend.
    destruct (Hnth _ _ _ Hk') as [_ [Hi' _]]. lia.
Qed.

Lemma windows_starts_below_total_witness :
  exists ws, windows [1; 2; 3; 4; 5] 5 2 = Ok ws /\
             nth_error ws 1 = Some (3, [4; 5]).
Proof.
  destruct (windows_starts_below_total [1; 2; 3; 4; 5] 5 2 ltac:(lia))
    as [ws [Hw _]].
  exists ws; split; [exact Hw|].
  vm_compute in Hw. injection Hw as <-. reflexivity.
Defined.

(** C3, on the code: an overlap above the budget raises nothing; the loop
    has no window and ends at once. *)
Lemma windows_overlap_above_budget_no_error :
  windows [1; 2; 3] 2 5 = Ok [] /\
  ~ (forall tokens budget overlap,
       budget <= overlap -> exists e, windows tokens budget overlap = Err e).
Proof.
  split; [reflexivity|].
  intros H. destruct (H [1; 2; 3] 2 5 ltac:(lia)) as [e He].
  discriminate He.
Qed.

(** C3, as the code has it: an overlap equal to the budget makes the
    step of [range] zero, which raises [ValueError] before any window; an
    overlap above the budget makes the step negative, and the loop has no
    window.  Either way the loop terminates. *)
Theorem windows_overlap_not_below_budget
  (tokens : list Z) (budget overlap : Z) :
  budget <= overlap ->
  windows tokens budget overlap
  = if overlap =? budget
    then Err (ValueError "range() arg 3 must not be zero")
    else Ok [].
Proof.
  intros H.
  destruct (Z.eqb_spec overlap budget) as [->|Hne].
  - apply windows_overlap_equal.
  - apply windows_overlap_above; lia.
Qed.

Lemma windows_overlap_not_below_budget_witness :
  windows [1; 2; 3] 2 2 = Err (ValueError "range() arg 3 must not be zero") /\
  windows [1; 2; 3] 2 5 = Ok [].
Proof.
  split.
  - apply (windows_overlap_not_below_budget [1; 2; 3] 2 2); lia.
  - apply (windows_overlap_not_below_budget [1; 2; 3] 2 5); lia.
Defined.

(** ** Budgets of the stages *)

Section Budgets.
Context {enc : Encoding}.

Lemma sort_by_topic_request (full_notes topics : str)
  (ptoks stoks ntoks : list Z) :
  encode ((topic_prompt topics ++ lit "###") ++ lit "###") = Ok ptoks ->
  encode SYSTEM_PROMPT = Ok stoks ->
  encode full_notes = Ok ntoks ->
  exists k,
    sort_by_topic full_notes (Some topics)
    = Request ((topic_prompt topics ++ lit "###") ++ full_notes ++ lit "###")
        (4000 - len ntoks - len ptoks - len stoks) k /\
    (forall content, k (Some content) = Ret (blank_edge_trim content)) /\
    k None = Raise openai_Error_missing.
Proof.
  intros Hp Hs Hn. unfold sort_by_topic; cbv zeta.
  rewrite Hp, Hs, Hn. cbn [lift bind call_openai_model].
  eexists; split; [reflexivity|]. split; [intros c|]; reflexivity.
Qed.

Lemma process_summary_request (sorted_notes : str)
  (ptoks stoks ntoks : list Z) :
  encode ((SUMMARY_PROMPT ++ lit "###") ++ lit "###") = Ok ptoks ->
  encode SYSTEM_PROMPT = Ok stoks ->
  encode sorted_notes = Ok ntoks ->
  exists k,
    process_summary sorted_notes
    = Request ((SUMMARY_PROMPT ++ lit "###") ++ sorted_notes ++ lit "###")
        (4000 - len ntoks - len ptoks - len stoks) k /\
    (forall content, k (Some content) = Ret (blank_edge_trim content)) /\
    k None = Raise openai_Error_missing.
Proof.
  intros Hp Hs Hn. unfold process_summary; cbv zeta.
  rewrite Hp, Hs, Hn. cbn [lift bind call_openai_model].
  eexists; split; [reflexivity|]. split; [intros c|]; reflexivity.
Qed.

Lemma process_sections_no_budget (text : str) (ptoks stoks toks : list Z) :
  encode ((SECTION_PROMPT ++ lit "###") ++ lit "###") = Ok ptoks ->
  encode SYSTEM_PROMPT = Ok stoks ->
  encode text = Ok toks ->
  4000 - SECTION_RESPONSE_MAX_TOKENS - len ptoks - len stoks <= 0 ->
  process_sections text = Ret [].
Proof.
  intros Hp Hs Ht Hb. unfold process_sections; cbv zeta.
  rewrite Hp, Hs, Ht. cbn [lift bind].
  rewrite windows_overlap_above; [reflexivity|].
  unfold OVERLAP; lia.
Qed.

End Budgets.

(** C1, on the code: with one token per character and notes of 4000
    characters the budget of the topic stage is negative, and the stage
    raises nothing: it sends its request with that negative cap, and
    returns the trimmed answer when the service gives one. *)
Lemma topic_sort_requests_without_budget :
  let notes := repeat "a"%char 4000 in
  let stage := sort_by_topic (enc := char_encoding) notes (Some (lit "auto")) in
  (exists prompt k, stage = Request prompt (-176) k) /\
  ~ raises stage /\
  fst (run scripted [Some (lit "- a")] stage) = Ok (lit "- a").
Proof.
  intros notes stage.
  destruct (sort_by_topic_request (enc := char_encoding) notes (lit "auto")
              _ _ _ eq_refl eq_refl eq_refl) as [k [Hk [Hr _]]].
  fold stage in Hk.
  assert (Hcap : stage = Request
                   ((topic_prompt (lit "auto") ++ lit "###") ++ notes
                    ++ lit "###") (-176) k).
  { rewrite Hk; f_equal; vm_compute; reflexivity. }
  split; [eauto|]. split.
  - intros [e He]. rewrite Hcap in He. discriminate He.
  - rewrite Hcap. cbn [run scripted fst]. rewrite Hr. reflexivity.
Qed.

(** C1, as the code has it: no stage checks its budget.  The topic and
    summary stages send their one request with the cap
    [4000 - len(notes tokens) - len(prompt tokens) - len(system tokens)]
    whatever its sign, and go on with the trimmed answer when the service
    gives one; a cap above 0 is at least 1.  The section stage, when
    [4000 - 1024 - len(prompt tokens) - len(system tokens)] is not above 0,
    sends no request and returns empty notes. *)
Theorem budgets_are_not_checked {enc : Encoding}
  (notes topics text : str) (stoks ntoks ttoks mtoks ctoks xtoks : list Z) :
  encode SYSTEM_PROMPT = Ok stoks ->
  encode notes = Ok ntoks ->
  encode ((topic_prompt topics ++ lit "###") ++ lit "###") = Ok ttoks ->
  encode ((SUMMARY_PROMPT ++ lit "###") ++ lit "###") = Ok mtoks ->
  encode ((SECTION_PROMPT ++ lit "###") ++ lit "###") = Ok ctoks ->
  encode text = Ok xtoks ->
  (exists k,
     sort_by_topic notes (Some topics)
     = Request ((topic_prompt topics ++ lit "###") ++ notes ++ lit "###")
         (4000 - len ntoks - len ttoks - len stoks) k /\
     forall content, k (Some content) = Ret (blank_edge_trim content)) /\
  (exists k,
     process_summary notes
     = Request ((SUMMARY_PROMPT ++ lit "###") ++ notes ++ lit "###")
         (4000 - len ntoks - len mtoks - len stoks) k /\
     forall content, k (Some content) = Ret (blank_edge_trim content)) /\
  (forall cap : Z, 0 < cap -> 1 <= cap) /\
  (4000 - SECTION_RESPONSE_MAX_TOKENS - len ctoks - len stoks <= 0 ->
   process_sections text = Ret []).
Proof.
  intros Hs Hn Ht Hm Hc Hx. split; [|split; [|split]].
  - destruct (sort_by_topic_request _ _ _ _ _ Ht Hs Hn) as [k [Hk [Hr _]]].
    exists k; split; assumption.
  - destruct (process_summary_request _ _ _ _ Hm Hs Hn) as [k [Hk [Hr _]]].
    exists k; split; assumption.
  - intros cap; lia.
  - exact (process_sections_no_budget _ _ _ _ Hc Hs Hx).
Qed.

Lemma budgets_are_not_checked_witness :
  (exists k,
     sort_by_topic (enc := char_encoding) (repeat "a"%char 4000)
       (Some (lit "auto"))
     = Request ((topic_prompt (lit "auto") ++ lit "###")
                ++ repeat "a"%char 4000 ++ lit "###") (-176) k /\
     k (Some ([LF] ++ lit "- a" ++ [LF])) = Ret (lit "- a")) /\
  (exists k,
     process_summary (enc := char_encoding) (repeat "a"%char 4000)
     = Request ((SUMMARY_PROMPT ++ lit "###")
                ++ repeat "a"%char 4000 ++ lit "###") (-212) k).
Proof.
  destruct (budgets_are_not_checked (enc := char_encoding)
              (repeat "a"%char 4000) (lit "auto") (lit "hello")
              _ _ _ _ _ _
              eq_refl eq_refl eq_refl eq_refl eq_refl eq_refl)
    as [[k1 [Hk1 Hr1]] [[k2 [Hk2 _]] _]].
  split.
  - exists k1. split; [|exact (Hr1 _)].
    rewrite Hk1; f_equal; vm_compute; reflexivity.
  - exists k2. rewrite Hk2; f_equal; vm_compute; reflexivity.
Defined.

(** ** Cleaning *)

(** C8: the cleaning of the example transcript is [Hello world]: the
    timestamp line goes, then the blank lines, then the two tags, and the
    whitespace runs become single spaces. *)
Theorem clean_input_text_example :
  let input :=
    lit "00:00:01.000 --> 00:00:02.000" ++ [LF]
    ++ lit "Hello <v Alice>world</v>" ++ [LF; LF] in
  clean_input_text input = lit "Hello world" /\
  re_sub timestamp_re [] input = lit "Hello <v Alice>world</v>" ++ [LF; LF] /\
  join [LF] (filter (fun line => truthy (strip line))
               (split LF (lit "Hello <v Alice>world</v>" ++ [LF; LF])))
  = lit "Hello <v Alice>world</v>" /\
  re_sub vtag_open_re [] (lit "Hello <v Alice>world</v>")
  = lit "Hello world</v>" /\
  re_sub vtag_close_re [] (lit "Hello world</v>") = lit "Hello world" /\
  re_sub spaces_re (lit " ") (lit "Hello world") = lit "Hello world".
Proof.
  cbv zeta.
  split; [|split; [|split; [|split; [|split]]]]; vm_compute; reflexivity.
Qed.

(** ** Jargon file *)

Lemma validate_pairs_bad (pairs : list (list str)) (fields : list str) :
  In fields pairs -> List.length fields <> 2%nat ->
  validate_pairs pairs = Err jargon_format_error.
Proof.
  induction pairs as [|f pairs IH]; intros Hin Hlen; [destruct Hin|].
  simpl. destruct (Nat.eqb_spec (List.length f) 2) as [E|E];
    [|reflexivity]. simpl.
  destruct Hin as [->|Hin]; [contradiction | auto].
Qed.

(** C10: when the jargon file exists and one of its lines is empty after
    stripping, the fields of that line are the single empty string, and
    jargon substitution raises the format error. *)
Theorem blank_jargon_line_is_malformed
  (fs : files) (text path content line : str) :
  fs path = Some content ->
  In line (readlines content) ->
  strip line = [] ->
  split "," (strip line) = [[]] /\
  replace_jargon fs text (Some path) = Err jargon_format_error.
Proof.
  intros Hf Hin Hs. split; [now rewrite Hs|].
  unfold replace_jargon. rewrite Hf.
  rewrite (validate_pairs_bad _ (split "," (strip line))); [reflexivity| |].
  - apply in_map_iff; exists line; auto.
  - rewrite Hs; simpl; lia.
Qed.

Lemma blank_jargon_line_is_malformed_witness :
  replace_jargon
    (fun _ => Some (lit "KPI,goal" ++ [LF; LF] ++ lit "ETA,arrival time" ++ [LF]))
    (lit "We track KPI weekly.") (Some (lit "jargon.txt"))
  = Err jargon_format_error.
Proof.
  apply (blank_jargon_line_is_malformed
           (fun _ => Some (lit "KPI,goal" ++ [LF; LF]
                           ++ lit "ETA,arrival time" ++ [LF]))
           (lit "We track KPI weekly.") (lit "jargon.txt")
           (lit "KPI,goal" ++ [LF; LF] ++ lit "ETA,arrival time" ++ [LF])
           [LF]).
  - reflexivity.
  - vm_compute; auto.
  - reflexivity.
Defined.

(** ** Assembly *)

(** C7: when the summary stage runs and the service answers [raw], the
    document is the trimmed [raw], then the separator (two newlines,
    [Notes:], a newline), then the sorted notes; without the summary stage
    it is the sorted notes alone.  On the example notes and answer, alone
    and at the end of a whole run, the document is the expected one. *)
Theorem combined_notes_document {enc : Encoding} {St : Type}
  (svc : St -> str -> Z -> option str * St) (s s' : St)
  (sorted_notes raw : str) (ptoks stoks ntoks : list Z) :
  encode ((SUMMARY_PROMPT ++ lit "###") ++ lit "###") = Ok ptoks ->
  encode SYSTEM_PROMPT = Ok stoks ->
  encode sorted_notes = Ok ntoks ->
  svc s ((SUMMARY_PROMPT ++ lit "###") ++ sorted_notes ++ lit "###")
    (4000 - len ntoks - len ptoks - len stoks) = (Some raw, s') ->
  run svc s (combine_notes true sorted_notes)
  = (Ok (blank_edge_trim raw ++ ([LF; LF] ++ lit "Notes:" ++ [LF])
         ++ sorted_notes), s') /\
  run svc s (combine_notes false sorted_notes) = (Ok sorted_notes, s) /\
  run scripted [Some example_summary_answer]
    (combine_notes (enc := char_encoding) true example_notes)
  = (Ok example_document, []) /\
  run scripted [Some example_notes; Some example_summary_answer]
    (main (enc := char_encoding) example_files nothing_else
       (example_arguments true) [])
  = (Ok example_document, []) /\
  run scripted [Some example_notes]
    (main (enc := char_encoding) example_files nothing_else
       (example_arguments false) [])
  = (Ok example_notes, []).
Proof.
  intros Hp Hs Hn Hsvc. split; [|split; [|split; [|split]]].
  - destruct (process_summary_request _ _ _ _ Hp Hs Hn) as [k [Hk [Hr _]]].
    unfold combine_notes. rewrite Hk. cbn [bind run].
    rewrite Hsvc, Hr. reflexivity.
  - reflexivity.
  - vm_compute; reflexivity.
  - vm_compute; reflexivity.
  - vm_compute; reflexivity.
Qed.

Lemma combined_notes_document_witness :
  run scripted [Some example_summary_answer]
    (combine_notes (enc := char_encoding) true example_notes)
  = (Ok (blank_edge_trim example_summary_answer
         ++ ([LF; LF] ++ lit "Notes:" ++ [LF]) ++ example_notes), []).
Proof.
  apply (combined_notes_document (enc := char_encoding) scripted
           [Some example_summary_answer] [] example_notes
           example_summary_answer _ _ _ eq_refl eq_refl eq_refl).
  reflexivity.
Defined.

(** * Further properties of the code *)

(** ** Windows: coverage *)

Lemma window_of_index (step j : Z) :
  0 < step -> 0 <= j ->
  Z.of_nat (Z.to_nat (j / step)) * step <= j
  < Z.of_nat (Z.to_nat (j / step)) * step + step.
Proof.
  intros Hs Hj.
  assert (0 <= j / step) by (apply Z.div_pos; lia).
  rewrite Z2Nat.id by lia.
  pose proof (Z.div_mod j step ltac:(lia)).
  pose proof (Z.mod_pos_bound j step Hs).
  nia.
Qed.

(** X1: with [0 <= overlap < budget], every token of the sequence is in
    some window, at the place its index and the start offset of the window
    give. *)
Theorem every_token_in_a_window
  (tokens : list Z) (budget overlap : Z) ws (j : nat) (t : Z) :
  0 <= overlap < budget ->
  windows tokens budget overlap = Ok ws ->
  nth_error tokens j = Some t ->
  exists k i w,
    nth_error ws k = Some (i, w) /\
    i <= Z.of_nat j < i + len w /\
    nth_error w (j - Z.to_nat i) = Some t.
Proof.
  intros Hbo Hw Hj.
  assert (Hs : 0 < budget - overlap) by lia.
  assert (HjL : (j < List.length tokens)%nat)
    by (apply nth_error_Some; congruence).
  pose proof (window_of_index _ (Z.of_nat j) Hs ltac:(lia)) as Hk.
  set (k := Z.to_nat (Z.of_nat j / (budget - overlap))) in *.
  set (i := Z.of_nat k * (budget - overlap)) in *.
  assert (Hi : 0 <= i < len tokens) by (unfold len; nia).
  rewrite (windows_items _ _ _ (proj2 Hbo)) in Hw. injection Hw as <-.
  exists k, i, (slice tokens i (i + budget)). split; [|split].
  - rewrite nth_error_map, nth_error_seq.
    assert (Hc : Z.of_nat k < window_count (len tokens) (budget - overlap))
      by (apply window_count_spec; [exact Hs | fold i; lia]).
    destruct (Nat.ltb_spec k
                (Z.to_nat (window_count (len tokens) (budget - overlap))));
      [reflexivity | lia].
  - rewrite len_window by lia. unfold len in *. lia.
  - rewrite slice_window by lia.
    rewrite nth_error_firstn, nth_error_skipn.
    destruct (Nat.ltb_spec (j - Z.to_nat i) (Z.to_nat budget)); [|lia].
    rewrite <- Hj. f_equal. lia.
Qed.

Lemma every_token_in_a_window_witness :
  exists k i w,
    nth_error [(0, [1; 2; 3]); (2, [3; 4; 5]); (4, [5; 6; 7]); (6, [7])] k
    = Some (i, w) /\
    i <= Z.of_nat 5 < i + len w /\
    nth_error w (5 - Z.to_nat i) = Some 6.
Proof.
  apply (every_token_in_a_window [1; 2; 3; 4; 5; 6; 7] 3 1);
    [lia | reflexivity | reflexivity].
Defined.

Lemma chunks_concat {A : Type} (step : nat) :
  (0 < step)%nat ->
  forall (c : nat) (l : list A),
    (List.length l <= c * step)%nat ->
    List.concat (map (fun k => firstn step (skipn (k * step) l)) (seq 0 c)) = l.
Proof.
  intros Hs. induction c as [|c IH]; intros l Hl.
  - destruct l; [reflexivity | simpl in Hl; lia].
  - simpl seq. rewrite <- seq_shift, map_cons, map_map, concat_cons.
    simpl skipn at 1.
    rewrite (map_ext _ (fun k => firstn step (skipn (k * step) (skipn step l)))).
    + rewrite IH; [apply firstn_skipn|]. rewrite length_skipn; lia.
    + intros k. rewrite skipn_skipn. f_equal. f_equal. lia.
Qed.

(** X2: with [0 <= overlap < budget], the windows cut the sequence without
    loss: the first [budget - overlap] tokens of every window, put end to
    end in the order of the windows, are the whole token sequence. *)
Theorem windows_rebuild_tokens (tokens : list Z) (budget overlap : Z) ws :
  0 <= overlap < budget ->
  windows tokens budget overlap = Ok ws ->
  List.concat (map (fun w => firstn (Z.to_nat (budget - overlap)) (snd w)) ws)
  = tokens.
Proof.
  intros Hbo Hw.
  assert (Hs : 0 < budget - overlap) by lia.
  rewrite (windows_items _ _ _ (proj2 Hbo)) in Hw. injection Hw as <-.
  rewrite map_map. cbn [snd].
  rewrite (map_ext _ (fun k => firstn (Z.to_nat (budget - overlap))
                                 (skipn (k * Z.to_nat (budget - overlap))
                                    tokens))).
  - apply chunks_concat; [lia|].
    unfold window_count, len.
    destruct (Z.ltb_spec 0 (Z.of_nat (List.length tokens))) as [Hn|Hn];
      [|lia].
    pose proof (Z.div_mod (Z.of_nat (List.length tokens) - 1)
                  (budget - overlap) ltac:(lia)) as Hd.
    pose proof (Z.mod_pos_bound (Z.of_nat (List.length tokens) - 1)
                  (budget - overlap) Hs) as Hm.
    assert (Hq : 0 <= (Z.of_nat (List.length tokens) - 1)
                      / (budget - overlap)) by (apply Z.div_pos; lia).
    apply Nat2Z.inj_le. rewrite Nat2Z.inj_mul, !Z2Nat.id by lia. nia.
  - intros k. rewrite slice_window by nia.
    rewrite firstn_firstn. f_equal; [lia|]. f_equal. nia.
Qed.

Lemma windows_rebuild_tokens_witness :
  List.concat (map (fun w => firstn (Z.to_nat (3 - 1)) (snd w))
            [(0, [1; 2; 3]); (2, [3; 4; 5]); (4, [5; 6; 7]); (6, [7])])
  = [1; 2; 3; 4; 5; 6; 7].
Proof.
  apply (windows_rebuild_tokens [1; 2; 3; 4; 5; 6; 7] 3 1);
    [lia | reflexivity].
Defined.

(** X3: with [0 <= overlap < budget], the number of windows is the total
    length divided by [budget - overlap], rounded up, and every window has
    at least one token and at most [budget]; it is the run of [budget]
    tokens from its start offset, cut at the end of the sequence. *)
Theorem windows_count_and_sizes (tokens : list Z) (budget overlap : Z) ws :
  0 <= overlap < budget ->
  windows tokens budget overlap = Ok ws ->
  Z.of_nat (List.length ws)
  = (len tokens + (budget - overlap) - 1) / (budget - overlap) /\
  forall i w, In (i, w) ws ->
    1 <= len w <= budget /\
    w = firstn (Z.to_nat budget) (skipn (Z.to_nat i) tokens).
Proof.
  intros Hbo Hw.
  assert (Hs : 0 < budget - overlap) by lia.
  split.
  - rewrite (windows_items _ _ _ (proj2 Hbo)) in Hw. injection Hw as <-.
    rewrite length_map, length_seq. unfold window_count.
    destruct (Z.ltb_spec 0 (len tokens)) as [Hn|Hn].
    + replace (len tokens + (budget - overlap) - 1)
        with (len tokens - 1 + 1 * (budget - overlap)) by lia.
      rewrite Z.div_add by lia.
      assert (0 <= (len tokens - 1) / (budget - overlap))
        by (apply Z.div_pos; lia).
      lia.
    + assert (len tokens = 0) by (unfold len in *; lia).
      replace (len tokens + (budget - overlap) - 1)
        with (budget - overlap - 1) by lia.
      rewrite Z.div_small by lia. reflexivity.
  - intros i w Hin. apply In_nth_error in Hin. destruct Hin as [k Hk].
    destruct (windows_nth _ _ _ _ _ _ _ (proj2 Hbo) Hw Hk) as [E [C ->]].
    apply window_count_spec in C; [|exact Hs].
    assert (Hi : 0 <= i < len tokens) by nia.
    pose proof (len_window tokens i budget Hi ltac:(lia)) as Hl.
    split; [lia|]. apply slice_window; lia.
Qed.

Lemma windows_count_and_sizes_witness :
  Z.of_nat (List.length [(0, [1; 2; 3; 4; 5]); (3, [4; 5])]) = (5 + (5 - 2) - 1) / (5 - 2).
Proof.
  apply (windows_count_and_sizes [1; 2; 3; 4; 5] 5 2); [lia | reflexivity].
Defined.

(** ** The section stage, request by request *)

Lemma run_bind {St A B : Type} (svc : St -> str -> Z -> option str * St)
  (m : io A) (k : A -> io B) (s : St) :
  run svc s (bind m k)
  = match run svc s m with
    | (Ok a, s') => run svc s' (k a)
    | (Err e, s') => (Err e, s')
    end.
Proof.
  revert s; induction m as [a|e|prompt cap c IH]; intros s; simpl;
    [reflexivity | reflexivity |].
  destruct (svc s prompt cap) as [r s']. apply IH.
Qed.

Lemma windows_nil (b o : Z) : b <> o -> windows [] b o = Ok [].
Proof.
  intros H. unfold windows, range, len. simpl List.length.
  replace (b - o =? 0) with false by lia.
  destruct (0 <? b - o); reflexivity.
Qed.

Section SectionStage.
Context {enc : Encoding}.

Lemma sections_loop_served {St : Type}
  (svc : St -> str -> Z -> option str * St) (ws : list (Z * list Z)) :
  forall (answers : list str) (s s' : St) (got : list str),
    serve svc s (map section_request ws) = (map Some got, s') ->
    run svc s
      (sections_loop (SECTION_PROMPT ++ lit "###") (lit "###") ws answers)
    = (Ok (answers ++ map bullet_filter got), s').
Proof.
  induction ws as [|[i x] ws IH]; intros answers s s' got H.
  - cbn [map serve] in H. injection H as Hg <-.
    destruct got; [|discriminate Hg]. simpl. now rewrite app_nil_r.
  - cbn [map serve section_request fst snd] in H.
    cbn [sections_loop call_openai_model bind run].
    destruct (svc s ((SECTION_PROMPT ++ lit "###") ++ decode x ++ lit "###")
                SECTION_RESPONSE_MAX_TOKENS) as [r s1].
    destruct (serve svc s1 (map section_request ws)) as [rs s2] eqn:E.
    injection H as Hg <-.
    destruct got as [|a got]; [discriminate Hg|].
    cbn [map] in Hg. injection Hg as -> ->.
    cbn [bind]. rewrite (IH _ _ _ _ E). cbn [map].
    now rewrite <- app_assoc.
Qed.

Lemma sections_loop_failed {St : Type}
  (svc : St -> str -> Z -> option str * St)
  (w : Z * list Z) (post : list (Z * list Z)) :
  forall (pre : list (Z * list Z)) (answers : list str) (s s1 s2 : St)
         (got : list str),
    serve svc s (map section_request pre) = (map Some got, s1) ->
    svc s1 (fst (section_request w)) (snd (section_request w)) = (None, s2) ->
    run svc s
      (sections_loop (SECTION_PROMPT ++ lit "###") (lit "###")
         (pre ++ w :: post) answers)
    = (Err openai_Error_missing, s2).
Proof.
  induction pre as [|[i x] pre IH]; intros answers s s1 s2 got H Hw.
  - cbn [map serve] in H. injection H as _ <-.
    destruct w as [i x]. cbn [section_request fst snd] in Hw.
    cbn [app sections_loop call_openai_model bind run].
    rewrite Hw. reflexivity.
  - cbn [map serve section_request fst snd] in H.
    cbn [app sections_loop call_openai_model bind run].
    destruct (svc s ((SECTION_PROMPT ++ lit "###") ++ decode x ++ lit "###")
                SECTION_RESPONSE_MAX_TOKENS) as [r s0].
    destruct (serve svc s0 (map section_request pre)) as [rs s0'] eqn:E.
    injection H as Hg <-.
    destruct got as [|a got]; [discriminate Hg|].
    cbn [map] in Hg. injection Hg as -> ->.
    cbn [bind]. exact (IH _ _ _ _ _ E Hw).
Qed.

Lemma process_sections_windows (text : str) (ptoks stoks toks : list Z) :
  encode ((SECTION_PROMPT ++ lit "###") ++ lit "###") = Ok ptoks ->
  encode SYSTEM_PROMPT = Ok stoks ->
  encode text = Ok toks ->
  process_sections text
  = (ws <- lift (windows toks
                   (4000 - SECTION_RESPONSE_MAX_TOKENS
                    - len ptoks - len stoks) OVERLAP) ;;
     answers <- sections_loop (SECTION_PROMPT ++ lit "###") (lit "###") ws [] ;;
     Ret (join [LF] answers)).
Proof.
  intros Hp Hs Ht. unfold process_sections; cbv zeta.
  rewrite Hp, Hs, Ht. reflexivity.
Qed.

(** X4: a text without tokens gives empty notes and no request (unless
    the section length equals the overlap, where the loop header raises). *)
Theorem process_sections_empty_text (text : str) (ptoks stoks : list Z) :
  encode ((SECTION_PROMPT ++ lit "###") ++ lit "###") = Ok ptoks ->
  encode SYSTEM_PROMPT = Ok stoks ->
  encode text = Ok [] ->
  4000 - SECTION_RESPONSE_MAX_TOKENS - len ptoks - len stoks <> OVERLAP ->
  process_sections text = Ret [].
Proof.
  intros Hp Hs Ht Hne.
  rewrite (process_sections_windows _ _ _ _ Hp Hs Ht).
  rewrite (windows_nil _ _ Hne). reflexivity.
Qed.

(** X5: for any service, the section stage asks one request per window,
    in the order of the windows, each made of the instruction, [###], the
    decoded window and [###], with the cap 1024; when every one of them is
    answered, the notes are the bullet-filtered answers joined by newlines
    in that order, and the service is left as these requests leave it. *)
Theorem process_sections_answers {St : Type}
  (svc : St -> str -> Z -> option str * St) (s s' : St) (text : str)
  (ptoks stoks toks : list Z) (ws : list (Z * list Z)) (got : list str) :
  encode ((SECTION_PROMPT ++ lit "###") ++ lit "###") = Ok ptoks ->
  encode SYSTEM_PROMPT = Ok stoks ->
  encode text = Ok toks ->
  windows toks (4000 - SECTION_RESPONSE_MAX_TOKENS - len ptoks - len stoks)
    OVERLAP = Ok ws ->
  serve svc s
    (map (fun w => ((SECTION_PROMPT ++ lit "###")
                    ++ decode (snd w) ++ lit "###", 1024)) ws)
  = (map Some got, s') ->
  run svc s (process_sections text)
  = (Ok (join [LF] (map bullet_filter got)), s').
Proof.
  intros Hp Hs Ht Hw Hserve.
  rewrite (process_sections_windows _ _ _ _ Hp Hs Ht), Hw.
  cbn [lift bind]. rewrite run_bind.
  rewrite (sections_loop_served svc ws [] s s' got Hserve). reflexivity.
Qed.

(** X6: if the service fails on the request of a window after answering
    the requests of the windows before it, the section stage ends with the
    [AttributeError] of the handler, the answers received are lost, and the
    service is left as the failed request leaves it: nothing is asked for
    the later windows. *)
Theorem process_sections_fails_fast {St : Type}
  (svc : St -> str -> Z -> option str * St) (s s1 s2 : St) (text : str)
  (ptoks stoks toks : list Z) (pre post : list (Z * list Z))
  (w : Z * list Z) (got : list str) :
  encode ((SECTION_PROMPT ++ lit "###") ++ lit "###") = Ok ptoks ->
  encode SYSTEM_PROMPT = Ok stoks ->
  encode text = Ok toks ->
  windows toks (4000 - SECTION_RESPONSE_MAX_TOKENS - len ptoks - len stoks)
    OVERLAP = Ok (pre ++ w :: post) ->
  serve svc s (map section_request pre) = (map Some got, s1) ->
  svc s1 (fst (section_request w)) (snd (section_request w)) = (None, s2) ->
  run svc s (process_sections text)
  = (Err (AttributeError "module 'openai' has no attribute 'Error'"), s2).
Proof.
  intros Hp Hs Ht Hw Hpre Hfail.
  rewrite (process_sections_windows _ _ _ _ Hp Hs Ht), Hw.
  cbn [lift bind]. rewrite run_bind.
  rewrite (sections_loop_failed svc w post pre [] s s1 s2 got Hpre Hfail).
  reflexivity.
Qed.

End SectionStage.

Lemma process_sections_empty_text_witness :
  process_sections (enc := char_encoding) [] = Ret [].
Proof.
  apply (process_sections_empty_text (enc := char_encoding) [] _ _
           eq_refl eq_refl eq_refl).
  vm_compute. discriminate.
Defined.

Lemma process_sections_answers_witness :
  run scripted [Some (lit " - a "); Some (lit "- b" ++ [LF; LF] ++ lit "c")]
    (process_sections (enc := char_encoding) (repeat "a"%char 3000))
  = (Ok (lit "- a" ++ [LF] ++ lit "- b" ++ [LF] ++ lit "c"), []) /\
  run (recording (fun p m => Some (lit "- a"))) []
    (process_sections (enc := char_encoding) (repeat "a"%char 3000))
  = (Ok (lit "- a" ++ [LF] ++ lit "- a"),
     [((SECTION_PROMPT ++ lit "###") ++ repeat "a"%char 2805 ++ lit "###",
       1024);
      ((SECTION_PROMPT ++ lit "###") ++ repeat "a"%char 245 ++ lit "###",
       1024)]).
Proof.
  split.
  - apply (process_sections_answers (enc := char_encoding) scripted
             [Some (lit " - a "); Some (lit "- b" ++ [LF; LF] ++ lit "c")] []
             (repeat "a"%char 3000) _ _ _
             [(0, repeat 97 2805); (2755, repeat 97 245)]
             [lit " - a "; lit "- b" ++ [LF; LF] ++ lit "c"]
             eq_refl eq_refl eq_refl).
    + vm_compute. reflexivity.
    + reflexivity.
  - apply (process_sections_answers (enc := char_encoding)
             (recording (fun p m => Some (lit "- a"))) []
             [((SECTION_PROMPT ++ lit "###") ++ repeat "a"%char 2805
               ++ lit "###", 1024);
              ((SECTION_PROMPT ++ lit "###") ++ repeat "a"%char 245
               ++ lit "###", 1024)]
             (repeat "a"%char 3000) _ _ _
             [(0, repeat 97 2805); (2755, repeat 97 245)]
             [lit "- a"; lit "- a"]
             eq_refl eq_refl eq_refl).
    + vm_compute. reflexivity.
    + vm_compute. reflexivity.
Defined.

Lemma process_sections_fails_fast_witness :
  run scripted [Some (lit "- a"); None; Some (lit "- c")]
    (process_sections (enc := char_encoding) (repeat "a"%char (3000 + 3000)))
  = (Err (AttributeError "module 'openai' has no attribute 'Error'"),
     [Some (lit "- c")]).
Proof.
  apply (process_sections_fails_fast (enc := char_encoding) scripted
           [Some (lit "- a"); None; Some (lit "- c")]
           [None; Some (lit "- c")] [Some (lit "- c")]
           (repeat "a"%char (3000 + 3000)) _ _ _
           [(0, repeat 97 2805)] [(5510, repeat 97 490)]
           (2755, repeat 97 2805) [lit "- a"]
           eq_refl eq_refl eq_refl).
  - vm_compute. reflexivity.
  - reflexivity.
  - reflexivity.
Defined.

(** ** What the post-processing removes and keeps *)

Lemma dropwhile_prefix (p : ascii -> bool) (s : str) :
  exists a, s = a ++ dropwhile p s /\ forallb p a = true.
Proof.
  induction s as [|c s [a [Ha Hp]]].
  - exists []; auto.
  - simpl. destruct (p c) eqn:E.
    + exists (c :: a); simpl; rewrite E, Hp; split; [congruence | reflexivity].
    + exists []; auto.
Qed.

Lemma all_LF (a : str) :
  forallb is_LF a = true -> a = repeat LF (List.length a).
Proof.
  induction a as [|c a IH]; simpl; [reflexivity|].
  intros H; apply andb_prop in H; destruct H as [Hc Ha].
  unfold is_LF in Hc; apply Ascii.eqb_eq in Hc. subst c.
  now rewrite <- IH.
Qed.

Lemma forallb_rev (p : ascii -> bool) (a : str) :
  forallb p a = true -> forallb p (rev a) = true.
Proof.
  rewrite !forallb_forall. intros H x Hx. apply H, in_rev, Hx.
Qed.

(** X7: the blank-edge trim removes newlines at the two ends and nothing
    else: the text is some newlines, then the trimmed text, then some
    newlines.  Other whitespace at the ends and blank lines inside stay. *)
Theorem blank_edge_trim_removes_newlines_only (text : str) :
  exists n m : nat,
    text = repeat LF n ++ blank_edge_trim text ++ repeat LF m.
Proof.
  rewrite blank_edge_trim_spec. unfold trim_both.
  destruct (dropwhile_prefix is_LF text) as [a [Ha Hpa]].
  destruct (dropwhile_prefix is_LF (rev (dropwhile is_LF text)))
    as [b [Hb Hpb]].
  exists (List.length a), (List.length (rev b)).
  rewrite <- (all_LF a Hpa), <- (all_LF (rev b) (forallb_rev _ _ Hpb)).
  rewrite <- rev_app_distr, <- Hb, rev_involutive. exact Ha.
Qed.

Lemma split_In (c : ascii) (s l : str) (x : ascii) :
  In l (split c s) -> In x l -> In x s.
Proof.
  revert l; induction s as [|y s IH]; simpl; intros l H Hx.
  - destruct H as [<-|[]]; destruct Hx.
  - destruct (Ascii.eqb y c).
    + destruct H as [<-|H]; [destruct Hx | right; eauto].
    + destruct (split c s) as [|l0 ls] eqn:E.
      * destruct H as [<-|[]]. destruct Hx as [->|[]]; auto.
      * destruct H as [<-|H].
        -- destruct Hx as [->|Hx]; [auto | right; apply (IH l0); simpl; auto].
        -- right; apply (IH l); simpl; auto.
Qed.

Lemma dropwhile_all (p : ascii -> bool) (s : str) :
  forallb p s = true -> dropwhile p s = [].
Proof.
  induction s as [|c s IH]; simpl; [reflexivity|].
  intros H; apply andb_prop in H; destruct H as [-> Hs]; auto.
Qed.

(** X8: an answer made of whitespace only (spaces, tabs, newlines) gives
    empty notes for its section. *)
Theorem bullet_filter_blank_answer (answer : str) :
  forallb isspace answer = true -> bullet_filter answer = [].
Proof.
  intros H. unfold bullet_filter. rewrite filtered_lines_spec.
  assert (E : forall ls : list str,
             (forall l, In l ls -> forallb isspace l = true) ->
             filter truthy (map strip ls) = []).
  { induction ls as [|l ls IH]; intros Hls; [reflexivity|]. simpl.
    unfold strip at 1, lstrip.
    rewrite (dropwhile_all _ _ (Hls l (or_introl eq_refl))). simpl.
    apply IH; intros; apply Hls; right; assumption. }
  rewrite E; [reflexivity|].
  intros l Hl. apply forallb_forall. intros x Hx.
  rewrite forallb_forall in H. exact (H x (split_In _ _ _ _ Hl Hx)).
Qed.

Lemma bullet_filter_blank_answer_witness :
  bullet_filter (lit "  " ++ [LF] ++ lit " " ++ [LF]) = [].
Proof.
  apply (bullet_filter_blank_answer (lit "  " ++ [LF] ++ lit " " ++ [LF])).
  reflexivity.
Defined.

(** X9: filtered notes that are not empty have no blank line, and no line
    with whitespace at either end. *)
Theorem bullet_filter_no_blank_line (answer line : str) :
  bullet_filter answer <> [] ->
  In line (split LF (bullet_filter answer)) ->
  line <> [] /\ strip line = line.
Proof.
  intros Hne Hin.
  assert (Hl : filtered_lines_of answer <> []).
  { intros E. apply Hne. unfold bullet_filter. now rewrite E. }
  unfold bullet_filter in Hin. rewrite split_join in Hin.
  - destruct (kept_line _ _ Hin) as [raw [_ [-> Ht]]]. split.
    + intros E. rewrite E in Ht. discriminate Ht.
    + rewrite !strip_trim. apply trim_both_idem.
  - exact Hl.
  - intros x Hx. destruct (kept_line _ _ Hx) as [raw [Hraw [-> _]]].
    intros Hc. apply (split_pieces _ _ _ Hraw).
    rewrite strip_trim in Hc. exact (trim_both_In _ _ _ Hc).
Qed.

Lemma bullet_filter_no_blank_line_witness :
  lit "- b" <> [] /\ strip (lit "- b") = lit "- b".
Proof.
  apply (bullet_filter_no_blank_line
           (lit " - a" ++ [LF; LF] ++ lit " - b " ++ [LF])).
  - vm_compute. discriminate.
  - vm_compute. auto.
Defined.

(** ** The cleaned text *)

Lemma many1_alone (p : ascii -> bool) (s : str) :
  match_here [Many1 p] s
  = match s with
    | c :: s' => if p c then Some (dropwhile p s') else None
    | [] => None
    end.
Proof.
  induction s as [|c s IH]; [reflexivity|].
  change (match_here [Many1 p] (c :: s))
    with (if p c
          then match match_here [Many1 p] s with
               | Some rest => Some rest
               | None => match_here [] s
               end
          else None).
  rewrite IH. destruct (p c); [|reflexivity].
  destruct s as [|d s']; simpl; [reflexivity|].
  destruct (p d); reflexivity.
Qed.

Lemma sub_from_skip (pat : pattern) (repl : str) (s : str) :
  forall k, sub_from pat repl k s = sub_from pat repl O (skipn k s).
Proof.
  induction s as [|c s IH]; intros [|k]; try reflexivity.
  change (sub_from pat repl (S k) (c :: s)) with (sub_from pat repl k s).
  apply IH.
Qed.

Lemma length_dropwhile (p : ascii -> bool) (s : str) :
  (List.length (dropwhile p s) <= List.length s)%nat.
Proof.
  induction s as [|c s IH]; simpl; [lia|].
  destruct (p c); simpl; lia.
Qed.

Lemma skipn_dropwhile (p : ascii -> bool) (s : str) :
  skipn (List.length s - List.length (dropwhile p s)) s = dropwhile p s.
Proof.
  induction s as [|c s IH]; [reflexivity|]. simpl dropwhile.
  pose proof (length_dropwhile p s).
  destruct (p c).
  - assert (E : (List.length (c :: s) - List.length (dropwhile p s)
                 = S (List.length s - List.length (dropwhile p s)))%nat)
      by (cbn [List.length]; lia).
    rewrite E. exact IH.
  - now rewrite Nat.sub_diag.
Qed.

Lemma collapse_step (repl : str) (c : ascii) (s : str) :
  sub_from spaces_re repl O (c :: s)
  = if isspace c
    then repl ++ sub_from spaces_re repl O (dropwhile isspace s)
    else c :: sub_from spaces_re repl O s.
Proof.
  cbn [sub_from]. unfold spaces_re at 1. rewrite many1_alone.
  destruct (isspace c); [|reflexivity].
  now rewrite sub_from_skip, skipn_dropwhile.
Qed.

Lemma collapse_single_spaced (n : nat) :
  forall s : str,
    (List.length s <= n)%nat ->
    single_spaced (sub_from spaces_re (lit " ") O s) = true.
Proof.
  induction n as [|n IH]; intros s Hs.
  - destruct s; [reflexivity | simpl in Hs; lia].
  - destruct s as [|c s]; [reflexivity|]. simpl in Hs.
    rewrite collapse_step. destruct (isspace c) eqn:Ec.
    + pose proof (length_dropwhile isspace s) as Hl.
      change (lit " " ++ sub_from spaces_re (lit " ") O (dropwhile isspace s))
        with (" "%char :: sub_from spaces_re (lit " ") O (dropwhile isspace s)).
      cbn [single_spaced]. rewrite IH by lia.
      destruct (dropwhile isspace s) as [|d t] eqn:Ed; [reflexivity|].
      pose proof (dropwhile_head _ _ _ _ Ed) as Hd.
      rewrite collapse_step, Hd. cbn iota. rewrite Hd. reflexivity.
    + cbn [single_spaced]. rewrite Ec. apply IH; lia.
Qed.

Lemma single_spaced_In (s : str) (c : ascii) :
  single_spaced s = true -> In c s -> isspace c = true -> c = " "%char.
Proof.
  induction s as [|x s IH]; intros H Hin Hc; [destruct Hin|].
  cbn [single_spaced] in H. apply andb_prop in H. destruct H as [Hx Hs].
  destruct Hin as [->|Hin]; [|auto].
  rewrite Hc in Hx. apply andb_prop in Hx. destruct Hx as [Hx _].
  now apply Ascii.eqb_eq in Hx.
Qed.

(** X10: the cleaned text is one line in which words are set apart by
    single spaces: its only whitespace character is the space, never a
    newline or a tab, and no space is followed by another one. *)
Theorem clean_input_text_single_spaced (text : str) :
  single_spaced (clean_input_text text) = true /\
  ~ In LF (clean_input_text text) /\
  forall c, In c (clean_input_text text) -> isspace c = true -> c = " "%char.
Proof.
  assert (H : single_spaced (clean_input_text text) = true)
    by (unfold clean_input_text, re_sub; eapply collapse_single_spaced,
        le_n).
  split; [exact H|]. split.
  - intros Hin. pose proof (single_spaced_In _ _ H Hin eq_refl) as E.
    discriminate E.
  - intros c. apply single_spaced_In, H.
Qed.

(** ** The jargon file, line by line *)

Lemma length_split (c : ascii) (s : str) :
  List.length (split c s) = S (count_chr c s).
Proof.
  unfold count_chr. induction s as [|x s IH]; [reflexivity|].
  simpl. rewrite (Ascii.eqb_sym c x).
  destruct (Ascii.eqb x c); simpl; [now rewrite IH|].
  destruct (split c s) as [|l ls]; simpl in *; [discriminate IH | exact IH].
Qed.

Lemma validate_lines (lines : list str) :
  validate_pairs (map (fun line => split "," (strip line)) lines)
  = if forallb (fun line => (count_chr "," (strip line) =? 1)%nat) lines
    then Ok tt else Err jargon_format_error.
Proof.
  induction lines as [|l lines IH]; [reflexivity|].
  cbn [map validate_pairs forallb]. rewrite length_split.
  change (S (count_chr "," (strip l)) =? 2)%nat
    with (count_chr "," (strip l) =? 1)%nat.
  destruct (count_chr "," (strip l) =? 1)%nat; [exact IH | reflexivity].
Qed.

(** X11: a jargon file is accepted exactly when every line, stripped, has
    one comma; then the pairs of all its lines are applied to the text, and
    otherwise the format error is raised and nothing is replaced. *)
Theorem jargon_lines_need_one_comma (fs : files) (text path content : str) :
  fs path = Some content ->
  replace_jargon fs text (Some path)
  = if forallb (fun line => (count_chr "," (strip line) =? 1)%nat)
         (readlines content)
    then Ok (replace_pairs text
               (map (fun line => split "," (strip line)) (readlines content)))
    else Err jargon_format_error.
Proof.
  intros Hf. unfold replace_jargon. rewrite Hf, validate_lines.
  destruct (forallb _ (readlines content)); reflexivity.
Qed.

Lemma jargon_lines_need_one_comma_witness :
  replace_jargon (fun _ => Some (lit "KPI,goal" ++ [LF] ++ lit "a,b,c"))
    (lit "We track KPI weekly.") (Some (lit "jargon.txt"))
  = Err jargon_format_error.
Proof.
  apply (jargon_lines_need_one_comma
           (fun _ => Some (lit "KPI,goal" ++ [LF] ++ lit "a,b,c"))
           (lit "We track KPI weekly.") (lit "jargon.txt")
           (lit "KPI,goal" ++ [LF] ++ lit "a,b,c")).
  reflexivity.
Defined.

Lemma replace_absent (s old new : str) :
  occurs old s = false -> replace s old new = s.
Proof.
  destruct old as [|o old].
  - destruct s; discriminate.
  - unfold replace. induction s as [|c s IH]; intros H; [reflexivity|].
    cbn [occurs] in H. apply orb_false_elim in H. destruct H as [H1 H2].
    cbn [replace_from]. rewrite H1, IH by exact H2. reflexivity.
Qed.

Lemma replace_pairs_absent (pairs : list (list str)) (text : str) :
  (forall j r, In [j; r] pairs -> occurs j text = false) ->
  replace_pairs text pairs = text.
Proof.
  induction pairs as [|fields pairs IH]; intros H; [reflexivity|].
  assert (IH' : replace_pairs text pairs = text)
    by (apply IH; intros; eapply H; right; eassumption).
  destruct fields as [|j [|r [|x fields]]]; cbn [replace_pairs]; trivial.
  rewrite (replace_absent text j r); [exact IH'|].
  apply (H j r); left; reflexivity.
Qed.

(** X12: when no term of an accepted jargon file occurs in the text, the
    text comes back unchanged. *)
Theorem jargon_terms_absent (fs : files) (text path content t : str) :
  fs path = Some content ->
  (forall line j r,
     In line (readlines content) -> split "," (strip line) = [j; r] ->
     occurs j text = false) ->
  replace_jargon fs text (Some path) = Ok t ->
  t = text.
Proof.
  intros Hf Habs. unfold replace_jargon. rewrite Hf.
  destruct (validate_pairs _); [|discriminate].
  intros H; injection H as <-. apply replace_pairs_absent.
  intros j r Hin. apply in_map_iff in Hin. destruct Hin as [line [E Hl]].
  exact (Habs line j r Hl E).
Qed.

Lemma jargon_terms_absent_witness :
  lit "We track goals weekly." = lit "We track goals weekly.".
Proof.
  apply eq_sym.
  apply (jargon_terms_absent
           (fun _ => Some (lit "KPI,goal" ++ [LF] ++ lit "ETA,arrival" ++ [LF]))
           (lit "We track goals weekly.") (lit "jargon.txt")
           (lit "KPI,goal" ++ [LF] ++ lit "ETA,arrival" ++ [LF])).
  - reflexivity.
  - intros line j r [<-|[<-|[]]] E; vm_compute in E;
      injection E as <- <-; reflexivity.
  - reflexivity.
Defined.

Lemma readlines_from_app (a b : str) :
  forall cur,
    readlines_from cur ((a ++ [LF]) ++ b)
    = readlines_from cur (a ++ [LF]) ++ readlines b.
Proof.
  induction a as [|x a IH]; intros cur.
  - reflexivity.
  - simpl. destruct (Ascii.eqb x LF).
    + rewrite <- app_comm_cons. f_equal. apply IH.
    + apply IH.
Qed.

Lemma replace_pairs_app (ps qs : list (list str)) :
  forall text,
    replace_pairs text (ps ++ qs) = replace_pairs (replace_pairs text ps) qs.
Proof.
  induction ps as [|fields ps IH]; intros text; [reflexivity|].
  destruct fields as [|j [|r [|x fields]]]; cbn [app replace_pairs];
    apply IH.
Qed.

(** X13: the lines of a jargon file act in file order, each on the output
    of the lines before it: a file made of a first part ending in a newline
    and a second part does what the first part and then the second part do,
    with the same error when either part is malformed. *)
Theorem jargon_file_in_order
  (fs1 fs2 fs12 : files) (text path first second : str) :
  fs1 path = Some (first ++ [LF]) ->
  fs2 path = Some second ->
  fs12 path = Some ((first ++ [LF]) ++ second) ->
  replace_jargon fs12 text (Some path)
  = match replace_jargon fs1 text (Some path) with
    | Ok t => replace_jargon fs2 t (Some path)
    | Err e => Err e
    end.
Proof.
  intros H1 H2 H12. unfold replace_jargon. rewrite H1, H2, H12.
  unfold readlines at 1 2. rewrite readlines_from_app.
  fold (readlines (first ++ [LF])).
  rewrite !validate_lines, forallb_app, map_app, replace_pairs_app.
  destruct (forallb _ (readlines (first ++ [LF])));
    destruct (forallb _ (readlines second)); reflexivity.
Qed.

Lemma jargon_file_in_order_witness :
  replace_jargon (fun _ => Some ((lit "a,b" ++ [LF]) ++ lit "b,c"))
    (lit "a") (Some (lit "jargon.txt"))
  = Ok (lit "c").
Proof.
  apply (jargon_file_in_order
           (fun _ => Some (lit "a,b" ++ [LF])) (fun _ => Some (lit "b,c"))
           (fun _ => Some ((lit "a,b" ++ [LF]) ++ lit "b,c"))
           (lit "a") (lit "jargon.txt") (lit "a,b") (lit "b,c"));
    reflexivity.
Defined.

(** ** Errors before the first request *)

(** X14: the run ends before any request to the model when the input
    path names nothing (exit status 1), when it names something that [open]
    cannot open, such as a directory (the exception of [open], which is not
    caught), and when a line of the jargon file, stripped, does not have
    exactly one comma (the format error). *)
Theorem main_stops_before_requests {enc : Encoding}
  (fs : files) (errors : open_errors) (args : arguments) (typed : str) :
  (fs (input_file args) = None -> errors (input_file args) = None ->
   main fs errors args typed = Raise (SystemExit 1)) /\
  (forall e,
     fs (input_file args) = None -> errors (input_file args) = Some e ->
     main fs errors args typed = Raise e) /\
  (forall input_text path content,
     fs (input_file args) = Some input_text ->
     jargon_file args = Some path ->
     fs path = Some content ->
     forallb (fun line => (count_chr "," (strip line) =? 1)%nat)
       (readlines content) = false ->
     main fs errors args typed = Raise jargon_format_error).
Proof.
  split; [|split].
  - intros H He. unfold main, get_input_text. rewrite H, He. reflexivity.
  - intros e H He. unfold main, get_input_text. rewrite H, He. reflexivity.
  - intros input_text path content Hin Hj Hf Hbad.
    unfold main, get_input_text, replace_jargon.
    rewrite Hin, Hj, Hf, validate_lines, Hbad. reflexivity.
Qed.

Lemma main_stops_before_requests_witness :
  main (enc := char_encoding) (fun _ => None) nothing_else
    (example_arguments false) []
  = Raise (SystemExit 1) /\
  main (enc := char_encoding) (fun _ => None)
    (fun _ => Some (OSError "IsADirectoryError"))
    (example_arguments false) []
  = Raise (OSError "IsADirectoryError") /\
  main (enc := char_encoding)
    (fun path => if str_eqb path (lit "in.txt") then Some (lit "hello")
                 else Some (lit "KPI goal"))
    nothing_else
    {| input_file := lit "in.txt"; output_file := None;
       jargon_file := Some (lit "jargon.txt"); topics := None;
       summary := false |} []
  = Raise jargon_format_error.
Proof.
  split; [|split].
  - apply (proj1 (main_stops_before_requests (enc := char_encoding)
                    (fun _ => None) nothing_else (example_arguments false)
                    [])); reflexivity.
  - apply (proj1 (proj2 (main_stops_before_requests (enc := char_encoding)
                           (fun _ => None)
                           (fun _ => Some (OSError "IsADirectoryError"))
                           (example_arguments false) [])));
      reflexivity.
  - eapply (proj2 (proj2 (main_stops_before_requests (enc := char_encoding)
                            _ _ _ _))); reflexivity.
Defined.

(** ** The output path *)

Lemma str_eqb_eq (a b : str) : str_eqb a b = true <-> a = b.
Proof.
  unfold str_eqb. destruct (list_eq_dec ascii_dec a b); split;
    congruence || auto.
Qed.

Lemma len_cons {A : Type} (x : A) (l : list A) : len (x :: l) = len l + 1.
Proof. unfold len; simpl List.length; lia. Qed.

Lemma rfind_from_bound (c : ascii) (p : str) :
  forall i found,
    rfind_from i p c found = found \/
    (i <= rfind_from i p c found < i + len p /\
     nth_error p (Z.to_nat (rfind_from i p c found - i)) = Some c).
Proof.
  induction p as [|x p IH]; intros i found; [left; reflexivity|].
  cbn [rfind_from]. rewrite len_cons.
  destruct (IH (i + 1) (if Ascii.eqb x c then i else found)) as [E|[Hb Hn]].
  - rewrite E. destruct (Ascii.eqb_spec x c) as [->|Hx]; [|left; reflexivity].
    right. split; [unfold len; lia|].
    now rewrite Z.sub_diag.
  - right. split; [lia|].
    replace (Z.to_nat (rfind_from (i + 1) p c
                         (if Ascii.eqb x c then i else found) - i))
      with (S (Z.to_nat (rfind_from (i + 1) p c
                           (if Ascii.eqb x c then i else found) - (i + 1))))
      by lia.
    exact Hn.
Qed.

Lemma rfind_from_absent (c : ascii) (p : str) :
  ~ In c p -> forall i found, rfind_from i p c found = found.
Proof.
  induction p as [|x p IH]; intros H i found; [reflexivity|].
  cbn [rfind_from]. destruct (Ascii.eqb_spec x c) as [->|Hx].
  - exfalso; apply H; left; reflexivity.
  - apply IH. intros Hc; apply H; right; exact Hc.
Qed.

Lemma rfind_from_app (c : ascii) (a b : str) :
  forall i found,
    rfind_from i (a ++ b) c found
    = rfind_from (i + len a) b c (rfind_from i a c found).
Proof.
  induction a as [|x a IH]; intros i found.
  - simpl. unfold len; simpl. now rewrite Z.add_0_r.
  - cbn [app rfind_from]. rewrite IH, len_cons. f_equal. lia.
Qed.

Lemma skipn_at {A : Type} (l : list A) (n : nat) (x : A) :
  nth_error l n = Some x -> exists t, skipn n l = x :: t.
Proof.
  revert l; induction n as [|n IH]; intros [|y l] H; try discriminate.
  - injection H as ->. eexists; reflexivity.
  - apply IH; exact H.
Qed.

Lemma slice_prefix (p : str) (d : Z) :
  0 <= d -> slice p 0 d = firstn (Z.to_nat d) p.
Proof.
  intros Hd. exact (slice_window p 0 d (Z.le_refl 0) Hd).
Qed.

Lemma slice_suffix (p : str) (d : Z) :
  0 <= d <= len p -> slice p d (len p) = skipn (Z.to_nat d) p.
Proof.
  intros Hd.
  replace (slice p d (len p)) with (slice p d (d + (len p - d)))
    by (f_equal; lia).
  rewrite slice_window by lia.
  apply firstn_all2. rewrite length_skipn. unfold len in *. lia.
Qed.

Lemma splitext_loop_cases (p : str) (d : Z) (fuel : nat) :
  forall fi,
    splitext_loop fuel p fi d = (p, []) \/
    splitext_loop fuel p fi d = (slice p 0 d, slice p d (len p)).
Proof.
  induction fuel as [|fuel IH]; intros fi; [left; reflexivity|].
  cbn [splitext_loop]. destruct (fi <? d); [|left; reflexivity].
  destruct (negb _); [right; reflexivity | apply IH].
Qed.

Lemma splitext_parts (p root ext : str) :
  splitext p = (root, ext) ->
  root ++ ext = p /\ (ext = [] \/ exists t, ext = "."%char :: t).
Proof.
  unfold splitext.
  destruct (Z.ltb_spec (rfind p "/") (rfind p ".")) as [Hlt|Hge].
  - destruct (splitext_loop_cases p (rfind p ".") (List.length p)
                (rfind p "/" + 1)) as [E|E]; rewrite E; clear E.
    + intros H; injection H as <- <-. rewrite app_nil_r; auto.
    + intros H; injection H as <- <-.
      unfold rfind in *.
      destruct (rfind_from_bound "/" p 0 (-1)) as [Es|[Hs _]];
        destruct (rfind_from_bound "." p 0 (-1)) as [Ed|[Hd Hn]]; try lia.
      * rewrite Z.sub_0_r in Hn.
        rewrite slice_prefix, slice_suffix by lia.
        split; [apply firstn_skipn|]. right. exact (skipn_at _ _ _ Hn).
      * rewrite Z.sub_0_r in Hn.
        rewrite slice_prefix, slice_suffix by lia.
        split; [apply firstn_skipn|]. right. exact (skipn_at _ _ _ Hn).
  - intros H; injection H as <- <-. rewrite app_nil_r; auto.
Qed.

(** X15: without an output path, the document is written to a path made
    of a prefix of the input path and [_output.txt]; that path is never the
    input path, so the input file stays as it was, and reading the written
    path gives the document. *)
Theorem default_output_is_not_the_input
  (writable : str -> bool) (fs fs' : files)
  (input_file combined_notes written : str) :
  write_output_to_file writable fs input_file None combined_notes
  = Ok (written, fs') ->
  written <> input_file /\
  fs' input_file = fs input_file /\
  fs' written = Some combined_notes /\
  exists root ext,
    input_file = root ++ ext /\ written = root ++ lit "_output.txt".
Proof.
  unfold write_output_to_file.
  destruct (splitext input_file) as [root ext] eqn:E. cbn [fst].
  destruct (splitext_parts _ _ _ E) as [Hp Hext].
  destruct (writable (root ++ lit "_output.txt")); [|discriminate].
  intros H; injection H as <- <-.
  assert (Hne : root ++ lit "_output.txt" <> input_file).
  { rewrite <- Hp. intros Heq. apply app_inv_head in Heq.
    destruct Hext as [->|[t ->]]; discriminate Heq. }
  split; [exact Hne|]. split; [|split].
  - cbv beta. destruct (str_eqb input_file _) eqn:Eb; [|reflexivity].
    apply str_eqb_eq in Eb. exfalso. apply Hne. symmetry. exact Eb.
  - cbv beta. destruct (str_eqb _ _) eqn:Eb; [reflexivity|].
    rewrite (proj2 (str_eqb_eq _ _) eq_refl) in Eb. discriminate Eb.
  - exists root, ext. auto.
Qed.

Lemma default_output_is_not_the_input_witness :
  lit "notes_output.txt" <> lit "notes.txt".
Proof.
  apply (default_output_is_not_the_input (fun _ => true) (fun _ => None)
           (fun path => if str_eqb path (lit "notes_output.txt")
                        then Some (lit "- a") else None)
           (lit "notes.txt") (lit "- a") (lit "notes_output.txt")).
  reflexivity.
Defined.

(** The loop of [splitext] has stopped by itself: more fuel changes
    nothing. *)
Lemma splitext_loop_more (p : str) (d : Z) (extra : nat) :
  forall (fuel : nat) (fi : Z),
    (Z.to_nat (d - fi) <= fuel)%nat ->
    splitext_loop (fuel + extra) p fi d = splitext_loop fuel p fi d.
Proof.
  induction fuel as [|fuel IH]; intros fi Hf.
  - destruct extra; [reflexivity|]. cbn [Nat.add splitext_loop].
    destruct (Z.ltb_spec fi d); [lia | reflexivity].
  - cbn [Nat.add splitext_loop].
    destruct (Z.ltb_spec fi d); [|reflexivity].
    destruct (negb _); [reflexivity|]. apply IH. lia.
Qed.

Lemma splitext_loop_finds (p : str) (d : Z) (j : nat) (x : ascii) :
  nth_error p j = Some x -> x <> "."%char -> Z.of_nat j < d ->
  forall (fuel : nat) (fi : Z),
    0 <= fi <= Z.of_nat j -> (j - Z.to_nat fi < fuel)%nat ->
    splitext_loop fuel p fi d = (slice p 0 d, slice p d (len p)).
Proof.
  intros Hj Hx Hd. induction fuel as [|fuel IH]; intros fi Hfi Hfuel; [lia|].
  cbn [splitext_loop].
  destruct (Z.ltb_spec fi d); [|lia].
  assert (Hlen : (j < List.length p)%nat)
    by (apply nth_error_Some; congruence).
  destruct (nth_error p (Z.to_nat fi)) as [y|] eqn:Ey;
    [|apply nth_error_None in Ey; lia].
  destruct (skipn_at _ _ _ Ey) as [t Et].
  rewrite slice_window, Et by lia.
  change (firstn (Z.to_nat 1) (y :: t)) with [y].
  destruct (str_eqb [y] (lit ".")) eqn:Eb; [|reflexivity].
  apply str_eqb_eq in Eb. injection Eb as ->. cbn [negb].
  apply IH.
  - assert (Z.to_nat fi <> j) by (intros <-; congruence). lia.
  - assert (Z.to_nat fi <> j) by (intros <-; congruence). lia.
Qed.

Lemma splitext_plain (stem ext : str) (c : ascii) :
  c <> "."%char -> c <> "/"%char -> ~ In "."%char ext -> ~ In "/"%char ext ->
  splitext ((stem ++ [c]) ++ "."%char :: ext)
  = (stem ++ [c], "."%char :: ext).
Proof.
  intros Hc1 Hc2 He1 He2. unfold splitext, rfind.
  set (p := (stem ++ [c]) ++ "."%char :: ext).
  assert (Hdot : rfind_from 0 p "." (-1) = len (stem ++ [c])).
  { unfold p. rewrite rfind_from_app. cbn [rfind_from].
    rewrite Ascii.eqb_refl. apply rfind_from_absent, He1. }
  assert (Hsep : rfind_from 0 p "/" (-1) = rfind_from 0 stem "/" (-1)).
  { unfold p. rewrite !rfind_from_app. cbn [rfind_from].
    destruct (Ascii.eqb_spec c "/"); [contradiction|].
    change (Ascii.eqb "." "/") with false. cbv iota.
    apply rfind_from_absent, He2. }
  rewrite Hdot, Hsep.
  assert (Hlen : len (stem ++ [c]) = len stem + 1)
    by (unfold len; rewrite length_app; simpl; lia).
  assert (Hb : -1 <= rfind_from 0 stem "/" (-1) < len stem).
  { destruct (rfind_from_bound "/" stem 0 (-1)) as [->|[Hb _]];
      unfold len in *; lia. }
  destruct (Z.ltb_spec (rfind_from 0 stem "/" (-1)) (len (stem ++ [c])));
    [|lia].
  assert (Hj : nth_error p (List.length stem) = Some c).
  { unfold p. rewrite <- !app_assoc.
    rewrite nth_error_app2, Nat.sub_diag by lia. reflexivity. }
  rewrite (splitext_loop_finds p _ (List.length stem) c Hj Hc1);
    [| unfold len in *; lia | unfold len in *; lia
     | unfold p; rewrite !length_app; simpl; lia ].
  rewrite slice_prefix, slice_suffix
    by (unfold p, len in *; rewrite ?length_app; simpl; lia).
  unfold len. rewrite Nat2Z.id. unfold p.
  rewrite firstn_app, Nat.sub_diag, firstn_all, firstn_O, app_nil_r.
  rewrite skipn_app, Nat.sub_diag, skipn_all, skipn_O. reflexivity.
Qed.

Lemma splitext_no_dot (path : str) :
  ~ In "."%char path -> splitext path = (path, []).
Proof.
  intros H. unfold splitext, rfind.
  rewrite (rfind_from_absent "." path H).
  destruct (rfind_from_bound "/" path 0 (-1)) as [->|[Hb _]].
  - reflexivity.
  - destruct (Z.ltb_spec (rfind_from 0 path "/" (-1)) (-1));
      [lia | reflexivity].
Qed.

(** X16: for an input path whose file name has one extension after a stem
    that does not end in a dot or a slash, the default output path is the
    path with the extension replaced by [_output.txt]; for an input path
    without any dot, [_output.txt] is put after the whole path. *)
Theorem default_output_path
  (writable : str -> bool) (fs : files) (notes : str) :
  (forall (stem ext : str) (c : ascii),
     c <> "."%char -> c <> "/"%char ->
     ~ In "."%char ext -> ~ In "/"%char ext ->
     writable ((stem ++ [c]) ++ lit "_output.txt") = true ->
     exists fs',
       write_output_to_file writable fs ((stem ++ [c]) ++ "."%char :: ext)
         None notes
       = Ok ((stem ++ [c]) ++ lit "_output.txt", fs')) /\
  (forall path : str,
     ~ In "."%char path ->
     writable (path ++ lit "_output.txt") = true ->
     exists fs',
       write_output_to_file writable fs path None notes
       = Ok (path ++ lit "_output.txt", fs')).
Proof.
  split.
  - intros stem ext c Hc1 Hc2 He1 He2 Hw. unfold write_output_to_file.
    rewrite (splitext_plain _ _ _ Hc1 Hc2 He1 He2). cbn [fst].
    rewrite Hw. eexists; reflexivity.
  - intros path Hp Hw. unfold write_output_to_file.
    rewrite (splitext_no_dot _ Hp). cbn [fst].
    rewrite Hw. eexists; reflexivity.
Qed.

Lemma default_output_path_witness :
  (exists fs',
     write_output_to_file (fun _ => true) (fun _ => None)
       (lit "talks/team.meeting.vtt") None (lit "- a")
     = Ok (lit "talks/team.meeting_output.txt", fs')) /\
  (exists fs',
     write_output_to_file (fun _ => true) (fun _ => None)
       (lit "talks/notes") None (lit "- a")
     = Ok (lit "talks/notes_output.txt", fs')).
Proof.
  split.
  - apply (proj1 (default_output_path (fun _ => true) (fun _ => None)
                    (lit "- a"))
             (lit "talks/team.meetin") (lit "vtt") "g"%char);
      solve [discriminate | reflexivity
            | vm_compute; intuition discriminate].
  - apply (proj2 (default_output_path (fun _ => true) (fun _ => None)
                    (lit "- a")) (lit "talks/notes"));
      solve [reflexivity | vm_compute; intuition discriminate].
Defined.

(** ** The whole run with a service that answers *)

(** X17: when the files are read without error, the texts that the run
    encodes can be encoded, the windows can be made and the service answers
    every request, the run asks for the sections in the order of the
    windows, then for the topics if topics are given, then for the summary
    if it is wanted, the service going from one request to the next.  The
    topic request carries the joined section notes and its trimmed answer
    replaces them; the summary request carries the notes as they are after
    the topic stage; the document is the trimmed summary, the separator and
    those notes, or those notes alone. *)
Theorem main_with_answering_service {enc : Encoding} {St : Type}
  (svc : St -> str -> Z -> option str * St) (s0 s1 s2 s3 : St)
  (fs : files) (errors : open_errors) (args : arguments)
  (typed input_text clean_text sorted_notes document : str)
  (ctoks stoks xtoks : list Z) (ws : list (Z * list Z)) (got : list str) :
  fs (input_file args) = Some input_text ->
  replace_jargon fs (clean_input_text input_text) (jargon_file args)
  = Ok clean_text ->
  encode ((SECTION_PROMPT ++ lit "###") ++ lit "###") = Ok ctoks ->
  encode SYSTEM_PROMPT = Ok stoks ->
  encode clean_text = Ok xtoks ->
  windows xtoks (4000 - SECTION_RESPONSE_MAX_TOKENS - len ctoks - len stoks)
    OVERLAP = Ok ws ->
  serve svc s0 (map section_request ws) = (map Some got, s1) ->
  match topics_of_run args typed with
  | Some t =>
      exists ttoks ftoks answer,
        encode ((topic_prompt t ++ lit "###") ++ lit "###") = Ok ttoks /\
        encode (join [LF] (map bullet_filter got)) = Ok ftoks /\
        svc s1
          ((topic_prompt t ++ lit "###")
           ++ join [LF] (map bullet_filter got) ++ lit "###")
          (4000 - len ftoks - len ttoks - len stoks) = (Some answer, s2) /\
        sorted_notes = blank_edge_trim answer
  | None => s2 = s1 /\ sorted_notes = join [LF] (map bullet_filter got)
  end ->
  (if summary args
   then exists mtoks ntoks answer,
          encode ((SUMMARY_PROMPT ++ lit "###") ++ lit "###") = Ok mtoks /\
          encode sorted_notes = Ok ntoks /\
          svc s2 ((SUMMARY_PROMPT ++ lit "###") ++ sorted_notes ++ lit "###")
            (4000 - len ntoks - len mtoks - len stoks) = (Some answer, s3) /\
          document
          = blank_edge_trim answer ++ ([LF; LF] ++ lit "Notes:" ++ [LF])
            ++ sorted_notes
   else s3 = s2 /\ document = sorted_notes) ->
  run svc s0 (main fs errors args typed) = (Ok document, s3).
Proof.
  intros Hin Hj Hc Hs Hx Hw Hserve Htopic Hsummary.
  unfold main, get_input_text. rewrite Hin. cbn [bind]. rewrite Hj.
  cbn [lift bind]. rewrite run_bind.
  rewrite (process_sections_windows _ _ _ _ Hc Hs Hx), Hw.
  cbn [lift bind]. rewrite run_bind.
  rewrite (sections_loop_served svc ws [] s0 s1 got Hserve).
  cbn [run app]. rewrite run_bind.
  fold (topics_of_run args typed).
  assert (Hsorted :
    run svc s1
      (sort_by_topic (join [LF] (map bullet_filter got))
         (topics_of_run args typed))
    = (Ok sorted_notes, s2)).
  { destruct (topics_of_run args typed) as [t|].
    - destruct Htopic as [ttoks [ftoks [answer [Ht [Hf [Hsvc ->]]]]]].
      destruct (sort_by_topic_request _ _ _ _ _ Ht Hs Hf)
        as [k [Hk [Hr _]]].
      rewrite Hk. cbn [run]. rewrite Hsvc, Hr. reflexivity.
    - destruct Htopic as [-> ->]. reflexivity. }
  rewrite Hsorted. unfold combine_notes.
  destruct (summary args).
  - destruct Hsummary as [mtoks [ntoks [answer [Hm [Hn [Hsvc ->]]]]]].
    destruct (process_summary_request _ _ _ _ Hm Hs Hn) as [k [Hk [Hr _]]].
    rewrite Hk. cbn [bind run]. rewrite Hsvc, Hr. reflexivity.
  - destruct Hsummary as [-> ->]. reflexivity.
Qed.

Lemma main_with_answering_service_witness :
  run scripted
    [Some (lit "- a" ++ [LF]); Some ([LF] ++ lit "Topic" ++ [LF] ++ lit "- a");
     Some (lit "Key" ++ [LF])]
    (main (enc := char_encoding) example_files nothing_else
       {| input_file := lit "in.txt"; output_file := None;
          jargon_file := None; topics := Some (lit "auto");
          summary := true |} [])
  = (Ok (lit "Key" ++ [LF; LF] ++ lit "Notes:" ++ [LF]
         ++ lit "Topic" ++ [LF] ++ lit "- a"), []).
Proof.
  apply (main_with_answering_service (enc := char_encoding) scripted
           [Some (lit "- a" ++ [LF]);
            Some ([LF] ++ lit "Topic" ++ [LF] ++ lit "- a");
            Some (lit "Key" ++ [LF])]
           [Some ([LF] ++ lit "Topic" ++ [LF] ++ lit "- a");
            Some (lit "Key" ++ [LF])]
           [Some (lit "Key" ++ [LF])] []
           example_files nothing_else
           {| input_file := lit "in.txt"; output_file := None;
              jargon_file := None; topics := Some (lit "auto");
              summary := true |}
           [] (lit "hello") (lit "hello")
           (lit "Topic" ++ [LF] ++ lit "- a")
           (lit "Key" ++ [LF; LF] ++ lit "Notes:" ++ [LF]
            ++ lit "Topic" ++ [LF] ++ lit "- a")
           _ _ _ [(0, [104; 101; 108; 108; 111])] [lit "- a" ++ [LF]]
           eq_refl eq_refl eq_refl eq_refl eq_refl eq_refl eq_refl).
  - do 3 eexists. repeat (split; [reflexivity|]). reflexivity.
  - do 3 eexists. repeat (split; [reflexivity|]). reflexivity.
Defined.
